(** * clanker: the translation dispatch pipeline

    A shallow embedding of [config_store.py], [providers.py] and the
    classifier and orchestrator of [app.py], followed by the properties of
    the natural-language specification that were checked against it.

    Python values are modelled as the code uses them:
    - a [str] is the list of its Unicode code points (a code point is an
      [N]); slicing, [len] and the [in] of two strings therefore count
      characters, exactly as CPython does;
    - a [dict] whose iteration order is irrelevant is a [gmap]; where the
      order of the keys is observable ([all_map] of the chain builder, the
      keyword arguments of [update_settings]) it is an association list;
    - an exception is a value of [exn] carried by [outcome]; code that talks
      to a translation back-end runs in the state-and-exception monad [M],
      whose state holds the configuration document, the state of the outside
      world and a ghost trace of the calls made. *)

From Stdlib Require Import NArith ZArith Ascii String.
From stdpp Require Import prelude strings gmap.

Open Scope N_scope.

(** ** Python strings *)

(** [py "abc"] is the Python string written with the same ASCII letters. *)
Definition py (s : string) : list N :=
  N_of_ascii <$> list_ascii_of_string s.
Arguments py : simpl never.

(** The horizontal ellipsis U+2026 used by [masked_settings]. *)
Definition ELLIPSIS : N := 8230.

Definition in_range (lo hi c : N) : bool := (lo <=? c) && (c <=? hi).

(** [str.isspace] on one character, which is also the class [\s] of [re] and
    the set of characters removed by [str.strip()]: CPython's
    [_PyUnicode_IsWhitespace]. *)
Definition isspace (c : N) : bool :=
  in_range 9 13 c || in_range 28 32 c || (c =? 133) || (c =? 160)
  || (c =? 5760) || in_range 8192 8202 c || (c =? 8232) || (c =? 8233)
  || (c =? 8239) || (c =? 8287) || (c =? 12288).

Fixpoint dropwhile {A} (p : A -> bool) (l : list A) : list A :=
  match l with
  | [] => []
  | x :: l' => if p x then dropwhile p l' else l
  end.

Fixpoint takewhile {A} (p : A -> bool) (l : list A) : list A :=
  match l with
  | [] => []
  | x :: l' => if p x then x :: takewhile p l' else []
  end.

Definition lstrip (s : list N) : list N := dropwhile isspace s.
Definition rstrip (s : list N) : list N := reverse (dropwhile isspace (reverse s)).
(** [s.strip()] *)
Definition strip (s : list N) : list N := rstrip (lstrip s).

(** [s.rstrip(chars)] *)
Definition rstrip_chars (chars s : list N) : list N :=
  reverse (dropwhile (fun c => bool_decide (c ∈ chars)) (reverse s)).

(** The truth value of a string: [bool(s)]. *)
Definition nonempty (s : list N) : bool :=
  match s with [] => false | _ => true end.

(** [s.startswith(p)] *)
Fixpoint startswith (p s : list N) : bool :=
  match p, s with
  | [], _ => true
  | a :: p', b :: s' => (a =? b) && startswith p' s'
  | _ :: _, [] => false
  end.

(** [s.split(sep)[0]] for a one-character separator. *)
Definition split_head (sep : N) (s : list N) : list N :=
  takewhile (fun c => negb (c =? sep)) s.

(** [needle in hay] for two strings. *)
Definition substring (needle hay : list N) : Prop :=
  ∃ pre post, hay = pre ++ needle ++ post.

(** [str(n)] for a natural number: its decimal digits. The fuel is the number
    of binary digits of [n], which is never less than the number of decimal
    ones. *)
Fixpoint digits_go (fuel : nat) (n : N) (acc : list N) : list N :=
  let acc' := (48 + n mod 10) :: acc in
  match fuel with
  | O => acc'
  | S fuel' => if n <? 10 then acc' else digits_go fuel' (n / 10) acc'
  end.

Definition str_of_N (n : N) : list N := digits_go (N.size_nat n) n [].

(** [str(z)] for an [int]. *)
Definition str_of_Z (z : Z) : list N :=
  match z with
  | Zneg p => 45 :: str_of_N (Npos p)
  | _ => str_of_N (Z.to_N z)
  end.

(** [x or y] on optional strings ([None] and [""] are false). *)
Definition str_or (x : option (list N)) (y : list N) : list N :=
  match x with
  | Some (c :: s) => c :: s
  | _ => y
  end.

(** ** The Unicode character database

    The tables behind [str.upper], [str.lower], [str.isalpha] and the classes
    [\d] and [\w] of [re] are part of the interpreter, not of the repository:
    they are a parameter of the model. [str.upper] maps every character on
    its own (to one or more characters); [str.lower] looks at the context of
    a capital sigma, so it is a function of the whole string. *)
Class Unicode := {
  upper_char : N -> list N;
  str_lower : list N -> list N;
  isalpha : N -> bool;
  isdecimal : N -> bool;
  isalnum : N -> bool;
}.

(** [s.upper()] *)
Definition str_upper {U : Unicode} (s : list N) : list N := s ≫= upper_char.

(** The tables restricted to ASCII: they agree with CPython on every code
    point below 128 and treat the others as caseless non-letters. They serve
    to run the model on ASCII inputs. *)
Definition ascii_upper_char (c : N) : N := if in_range 97 122 c then c - 32 else c.
Definition ascii_lower_char (c : N) : N := if in_range 65 90 c then c + 32 else c.
Definition ascii_isalpha (c : N) : bool := in_range 65 90 c || in_range 97 122 c.
Definition ascii_isdecimal (c : N) : bool := in_range 48 57 c.

Definition ascii_tables : Unicode := {|
  upper_char c := [ascii_upper_char c];
  str_lower s := ascii_lower_char <$> s;
  isalpha := ascii_isalpha;
  isdecimal := ascii_isdecimal;
  isalnum c := ascii_isalpha c || ascii_isdecimal c;
|}.

(** ** config_store.py *)

(** [self.data]: the three top-level mappings of the configuration document.
    Tenants are keyed by [str(guild_id)]; channel ids are kept as decimal
    strings, language codes as strings; a settings record maps a field name
    to an optional string ([None] is Python's [None], JSON's [null]).
    [save()] writes the document to disk and leaves [self.data] as it is: the
    file is not part of the model. *)
Record document := {
  guilds : gmap (list N) (list (list N));
  blacklist : gmap (list N) (list (list N));
  settings : gmap (list N) (gmap (list N) (option (list N)));
}.

(** [_DEFAULT], the document of a new [ConfigStore]. *)
Definition _DEFAULT : document :=
  {| guilds := ∅; blacklist := ∅; settings := ∅ |}.

Definition SENSITIVE_KEYS : list (list N) := [py "deepl_api_key"; py "libre_api_key"].

Definition _g (guild_id : Z) : list N := str_of_Z guild_id.

(** [self.data.get(top, {}).get(g, [])] *)
Definition get_list (m : gmap (list N) (list (list N))) (g : list N) : list (list N) :=
  default [] (m !! g).

(** [if x not in arr: arr.append(x)] *)
Definition append_if_absent (x : list N) (arr : list (list N)) : list (list N) :=
  if bool_decide (x ∈ arr) then arr else arr ++ [x].

(** [[y for y in arr if y != x]] *)
Definition without (x : list N) (arr : list (list N)) : list (list N) :=
  filter (λ y, y ≠ x) arr.

Definition add_channel (guild_id channel_id : Z) (d : document) : document :=
  let g := _g guild_id in
  {| guilds := <[g := append_if_absent (str_of_Z channel_id) (get_list (guilds d) g)]> (guilds d);
     blacklist := blacklist d; settings := settings d |}.

Definition remove_channel (guild_id channel_id : Z) (d : document) : document :=
  let g := _g guild_id in
  {| guilds := <[g := without (str_of_Z channel_id) (get_list (guilds d) g)]> (guilds d);
     blacklist := blacklist d; settings := settings d |}.

Definition has_channel (guild_id channel_id : Z) (d : document) : bool :=
  bool_decide (str_of_Z channel_id ∈ get_list (guilds d) (_g guild_id)).

Section config_store.
Context {U : Unicode}.

Definition list_blacklist (guild_id : Z) (d : document) : list (list N) :=
  str_upper <$> get_list (blacklist d) (_g guild_id).

Definition add_blacklist (guild_id : Z) (code : list N) (d : document) : document :=
  let code := strip (str_upper code) in
  if negb (nonempty code) then d else
  let g := _g guild_id in
  {| guilds := guilds d;
     blacklist := <[g := append_if_absent code (get_list (blacklist d) g)]> (blacklist d);
     settings := settings d |}.

Definition remove_blacklist (guild_id : Z) (code : list N) (d : document) : document :=
  let code := strip (str_upper code) in
  let g := _g guild_id in
  {| guilds := guilds d;
     blacklist := <[g := without code (get_list (blacklist d) g)]> (blacklist d);
     settings := settings d |}.
End config_store.

(** [get_settings]: the tenant's record, created empty on first access. It
    returns the record together with the document it leaves behind. *)
Definition get_settings (guild_id : Z) (d : document)
  : gmap (list N) (option (list N)) * document :=
  let g := _g guild_id in
  let st := default ∅ (settings d !! g) in
  (st, {| guilds := guilds d; blacklist := blacklist d; settings := <[g := st]> (settings d) |}).

(** The loop of [update_settings] over the keyword arguments. *)
Definition update_fields (kwargs : list (list N * option (list N)))
    (st : gmap (list N) (option (list N))) : gmap (list N) (option (list N)) :=
  foldl (λ st kv, match kv.2 with
                  | None => st
                  | Some v => <[kv.1 := Some v]> st
                  end) st kwargs.

Definition update_settings (guild_id : Z) (kwargs : list (list N * option (list N)))
    (d : document) : gmap (list N) (option (list N)) * document :=
  let '(st, d) := get_settings guild_id d in
  let st := update_fields kwargs st in
  (st, {| guilds := guilds d; blacklist := blacklist d;
          settings := <[_g guild_id := st]> (settings d) |}).

(** [v[:4] + "…" + str(len(v))] *)
Definition mask (v : list N) : list N :=
  take 4 v ++ [ELLIPSIS] ++ str_of_N (N.of_nat (length v)).

Definition masked_value (k : list N) (v : option (list N)) : option (list N) :=
  match v with
  | Some (c :: s) => if bool_decide (k ∈ SENSITIVE_KEYS) then Some (mask (c :: s)) else v
  | _ => v
  end.

Definition masked_settings (st : gmap (list N) (option (list N)))
  : gmap (list N) (option (list N)) :=
  map_imap (λ k v, Some (masked_value k v)) st.

(** ** Exceptions, JSON values and the outside world *)

(** The exceptions the modelled code can meet. [BackendError] stands for
    whatever a network library raises (connection failure, timeout, a body
    that is not JSON, a client that cannot be built). [CancelledError] is
    [asyncio.CancelledError], which reaches a coroutine at an [await] when
    its task is cancelled; it stands for the exceptions that derive from
    [BaseException] but not from [Exception]. The others derive from
    [Exception]. *)
Inductive exn :=
  | AttributeError
  | KeyError
  | UnicodeEncodeError
  | BackendError
  | CancelledError.

(** [isinstance(e, Exception)], the test of [except Exception]. *)
Definition is_Exception (e : exn) : bool :=
  match e with
  | CancelledError => false
  | _ => true
  end.

Inductive outcome (A : Type) := Ret (a : A) | Raise (e : exn).
Arguments Ret {A} a.
Arguments Raise {A} e.

(** What [json.loads] and [Response.json()] produce. Only the truth value of
    a number is ever looked at, so integers are enough. *)
#[warnings="-register-all"]
Inductive json :=
  | JNull
  | JBool (b : bool)
  | JNum (z : Z)
  | JStr (s : list N)
  | JArr (l : list json)
  | JObj (o : list (list N * json)).

(** [bool(v)] *)
Definition truthy (v : json) : bool :=
  match v with
  | JNull => false
  | JBool b => b
  | JNum z => negb (z =? 0)%Z
  | JStr s => nonempty s
  | JArr l => match l with [] => false | _ => true end
  | JObj o => match o with [] => false | _ => true end
  end.

(** [x or y] *)
Definition json_or (x y : json) : json := if truthy x then x else y.

Fixpoint assoc {A} (k : list N) (l : list (list N * A)) : option A :=
  match l with
  | [] => None
  | (k', v) :: l' => if bool_decide (k = k') then Some v else assoc k l'
  end.

(** [v.get(k, dflt)]: only a [dict] has the method. *)
Definition json_get (v : json) (k : list N) (dflt : json) : outcome json :=
  match v with
  | JObj o => Ret (default dflt (assoc k o))
  | _ => Raise AttributeError
  end.

(** [v.upper()] and [v.strip()]: only a [str] has the methods. *)
Definition json_upper {U : Unicode} (v : json) : outcome (list N) :=
  match v with
  | JStr s => Ret (str_upper s)
  | _ => Raise AttributeError
  end.

Definition json_strip (v : json) : outcome (list N) :=
  match v with
  | JStr s => Ret (strip s)
  | _ => Raise AttributeError
  end.

Inductive payload :=
  | NoBody
  | Form (fields : list (list N * list N))
  | JsonBody (fields : list (list N * list N)).

Inductive http_method := GET | POST.

Record request := {
  req_method : http_method;
  req_url : list N;
  req_body : payload;
}.

(** What an awaited request comes to: an exception of the client (no
    connection, a timeout), the cancellation of the task while it waits, or
    a response with its status code and, when its body parses, the JSON it
    holds. *)
Inductive reply :=
  | NoResponse
  | Cancelled
  | Response (status_code : Z) (body : option json).

(** What the awaited [Translator.translateText] comes to: an exception, the
    cancellation of the task while it waits, or a result object with the two
    attributes the provider reads. *)
Inductive deepl_reply :=
  | DeeplError
  | DeeplCancelled
  | DeeplResult (detected_source_lang text : json).

(** The translation back-ends, the [httpx] library and the [deepl] client
    library are outside the repository. Their behaviour is a parameter: a
    world state that every call may read and change. [httpx_AsyncClient t]
    is [httpx.AsyncClient(timeout=t)] being built and entered by
    [async with], and [httpx_aclose] is the client being closed when the
    block is left: each tells which exception it raises, if any.
    [deepl_new key] tells whether [deepl.Translator(key)] returns an object
    rather than raising. *)
Class Backend := {
  world : Type;
  httpx_AsyncClient : Z -> world -> option exn * world;
  httpx_aclose : world -> option exn * world;
  http_send : request -> world -> reply * world;
  deepl_new : list N -> bool;
  deepl_translateText : list N -> list N -> list N -> world -> deepl_reply * world;
}.

(** Ghost trace: which provider's [translate] was entered (with the value of
    its [is_configured()]) and which calls left the process. *)
Inductive event :=
  | EvTranslate (name : list N) (configured : bool)
  | EvHttp (r : request)
  | EvDeepl (text target_lang : list N).

Record state {B : Backend} := {
  st_data : document;
  st_world : world;
  st_trace : list event;
}.

(** ** The monad of effectful code: state that survives an exception *)
Definition M {B : Backend} (A : Type) : Type := state -> outcome A * state.

Section monad.
Context {B : Backend}.

Definition ret {A} (a : A) : M A := λ s, (Ret a, s).

Definition bind {A B} (c : M A) (k : A -> M B) : M B :=
  λ s, match c s with
       | (Ret a, s') => k a s'
       | (Raise e, s') => (Raise e, s')
       end.

Definition lift {A} (o : outcome A) : M A := λ s, (o, s).

(** [try: c  except Exception: h]: an exception that does not derive from
    [Exception] is not handled. *)
Definition try_except {A} (c : M A) (h : M A) : M A :=
  λ s, match c s with
       | (Ret a, s') => (Ret a, s')
       | (Raise e, s') => if is_Exception e then h s' else (Raise e, s')
       end.

(** [c], then [after] whether [c] returned or raised, as a context manager
    does on the way out: an exception of [after] replaces the outcome of
    [c]. *)
Definition ensure {A} (c : M A) (after : M unit) : M A :=
  λ s, match c s with
       | (res, s1) =>
           match after s1 with
           | (Ret _, s2) => (res, s2)
           | (Raise e, s2) => (Raise e, s2)
           end
       end.

Definition log (e : event) : M unit :=
  λ s, (Ret (), {| st_data := st_data s; st_world := st_world s;
                  st_trace := st_trace s ++ [e] |}).

(** A read or an update of the configuration document. *)
Definition on_data {A} (f : document -> A * document) : M A :=
  λ s, let '(a, d) := f (st_data s) in
       (Ret a, {| st_data := d; st_world := st_world s; st_trace := st_trace s |}).

Definition on_world {A} (f : world -> A * world) : M A :=
  λ s, let '(a, w) := f (st_world s) in
       (Ret a, {| st_data := st_data s; st_world := w; st_trace := st_trace s |}).
End monad.

#[global] Instance M_ret {B : Backend} : MRet M := @ret _.
#[global] Instance M_bind {B : Backend} : MBind M := λ X Y k c, bind c k.

(** ** providers.py *)

(** [urllib.parse.quote(text, safe="")]: the UTF-8 bytes of [text], each one
    kept when it is unreserved and written [%XX] otherwise. Encoding is
    strict: a surrogate code point raises [UnicodeEncodeError]. *)
Definition utf8_encode_char (c : N) : outcome (list N) :=
  if c <? 128 then Ret [c]
  else if c <? 2048 then Ret [192 + c / 64; 128 + c mod 64]
  else if in_range 55296 57343 c then Raise UnicodeEncodeError
  else if c <? 65536 then Ret [224 + c / 4096; 128 + (c / 64) mod 64; 128 + c mod 64]
  else Ret [240 + c / 262144; 128 + (c / 4096) mod 64; 128 + (c / 64) mod 64; 128 + c mod 64].

Fixpoint utf8_encode (s : list N) : outcome (list N) :=
  match s with
  | [] => Ret []
  | c :: s' =>
      match utf8_encode_char c with
      | Raise e => Raise e
      | Ret bs => match utf8_encode s' with
                  | Raise e => Raise e
                  | Ret bs' => Ret (bs ++ bs')
                  end
      end
  end.

Definition unreserved (b : N) : bool :=
  in_range 65 90 b || in_range 97 122 b || in_range 48 57 b
  || (b =? 95) || (b =? 46) || (b =? 45) || (b =? 126).

Definition hex_digit (d : N) : N := if d <? 10 then 48 + d else 55 + d.

Definition quote_byte (b : N) : list N :=
  if unreserved b then [b] else [37; hex_digit (b / 16); hex_digit (b mod 16)].

Definition quote (text : list N) : outcome (list N) :=
  match utf8_encode text with
  | Raise e => Raise e
  | Ret bs => Ret (bs ≫= quote_byte)
  end.

Section providers.
Context {U : Unicode} {B : Backend}.

(** The interface [TranslationProvider]: a name, [is_configured()] (fixed
    once the object is built) and [translate]. The second component of a
    result is whatever object the back-end's payload held. *)
Record TranslationProvider := {
  name : list N;
  is_configured : bool;
  translate : list N -> list N -> M (option (list N * json));
}.

(** [await client.post(...)], [await client.get(...)] *)
Definition send (r : request) : M (Z * option json) :=
  log (EvHttp r);;
  rep ← on_world (http_send r);
  match rep with
  | NoResponse => lift (Raise BackendError)
  | Cancelled => lift (Raise CancelledError)
  | Response status_code body => ret (status_code, body)
  end.

(** [async with httpx.AsyncClient(timeout=t) as client: body]: the client
    is built and entered before [body] runs and closed when [body] is left,
    whether it returned or raised. The providers put their [try] blocks
    inside [body], so neither step is guarded. *)
Definition with_client {A} (timeout : Z) (body : M A) : M A :=
  opened ← on_world (httpx_AsyncClient timeout);
  match opened with
  | Some e => lift (Raise e)
  | None =>
      ensure body
        (closed ← on_world httpx_aclose;
         match closed with
         | Some e => lift (Raise e)
         | None => ret ()
         end)
  end.

(** [r.json()] *)
Definition response_json (r : Z * option json) : M json :=
  match r.2 with
  | None => lift (Raise BackendError)
  | Some j => ret j
  end.

(** [target_lang.split("-")[0].lower()] *)
Definition short_code (target_lang : list N) : list N :=
  str_lower (split_head 45 target_lang).

Definition DeepLProvider (api_key : option (list N)) : TranslationProvider :=
  let api_key := strip (str_or api_key []) in
  let _translator := nonempty api_key && deepl_new api_key in
  {| name := py "deepl";
     is_configured := _translator;
     translate text target_lang :=
       if negb _translator then ret None else
       try_except
         (log (EvDeepl text target_lang);;
          result ← on_world (deepl_translateText api_key text target_lang);
          match result with
          | DeeplError => lift (Raise BackendError)
          | DeeplCancelled => lift (Raise CancelledError)
          | DeeplResult detected_source_lang text =>
              detected ← lift (json_upper (json_or detected_source_lang (JStr [])));
              let translated := json_or text (JStr []) in
              ret (Some (detected, translated))
          end)
         (ret None) |}.

Definition with_api_key (api_key : list N) (fields : list (list N * list N))
  : list (list N * list N) :=
  if nonempty api_key then fields ++ [(py "api_key", api_key)] else fields.

Definition LibreTranslateProvider (base_url api_key : option (list N))
  : TranslationProvider :=
  let base_url := rstrip_chars (py "/") (str_or base_url []) in
  let api_key := strip (str_or api_key []) in
  {| name := py "libre";
     is_configured := nonempty base_url;
     translate text target_lang :=
       if negb (nonempty base_url) then ret None else
       let target := short_code target_lang in
       with_client 10
       (detected_lang ←
         try_except
           (let det_payload := with_api_key api_key [(py "q", text)] in
            det_r ← send {| req_method := POST; req_url := base_url ++ py "/detect";
                             req_body := Form det_payload |};
            if (det_r.1 =? 200)%Z then
              det_json ← response_json det_r;
              match det_json with
              | JArr (first :: _) =>
                  language ← lift (json_get first (py "language") JNull);
                  lift (json_upper (json_or language (JStr [])))
              | _ => ret []
              end
            else ret [])
           (ret []);
       try_except
         (let tx_payload := with_api_key api_key
            [(py "q", text); (py "source", py "auto"); (py "target", target);
             (py "format", py "text")] in
          r ← send {| req_method := POST; req_url := base_url ++ py "/translate";
                       req_body := Form tx_payload |};
          if negb (r.1 =? 200)%Z then ret None else
          data ← response_json r;
          translated ← lift (json_get data (py "translatedText") (JStr []));
          ret (Some (detected_lang, translated)))
         (ret None)) |}.

Definition LingvaProvider (base_url : option (list N)) : TranslationProvider :=
  let base_url := rstrip_chars (py "/") (str_or base_url []) in
  {| name := py "lingva";
     is_configured := nonempty base_url;
     translate text target_lang :=
       if negb (nonempty base_url) then ret None else
       let target := short_code target_lang in
       query ← lift (quote text);
       let url := base_url ++ py "/api/v1/auto/" ++ target ++ py "/" ++ query in
       with_client 10
       (try_except
         (r ← send {| req_method := GET; req_url := url; req_body := NoBody |};
          if negb (r.1 =? 200)%Z then ret None else
          data ← response_json r;
          translated ← lift (json_get data (py "translation") (JStr []));
          info0 ← lift (json_get data (py "info") JNull);
          let info := json_or info0 (JObj []) in
          detectedSource ← lift (json_get info (py "detectedSource") JNull);
          source ← (if truthy detectedSource then ret detectedSource
                     else lift (json_get info (py "source") JNull));
          detected ← lift (json_upper (json_or source (JStr [])));
          ret (Some (detected, translated)))
         (ret None)) |}.

Definition SimplyTranslateProvider (base_url : option (list N)) : TranslationProvider :=
  let base_url := rstrip_chars (py "/") (str_or base_url []) in
  {| name := py "simply";
     is_configured := nonempty base_url;
     translate text target_lang :=
       if negb (nonempty base_url) then ret None else
       let target := short_code target_lang in
       let payload := [(py "from", py "auto"); (py "to", target); (py "text", text)] in
       with_client 12
       (try_except
         (r ← send {| req_method := POST; req_url := base_url ++ py "/api/translate";
                       req_body := JsonBody payload |};
          if negb (r.1 =? 200)%Z then ret None else
          data ← response_json r;
          translation ← lift (json_get data (py "translation") JNull);
          result ← (if truthy translation then ret translation
                     else lift (json_get data (py "result") JNull));
          let translated := json_or result (JStr []) in
          detected0 ← lift (json_get data (py "detected") JNull);
          source ← (if truthy detected0 then ret detected0
                     else lift (json_get data (py "source") JNull));
          detected ← lift (json_upper (json_or source (JStr [])));
          ret (Some (detected, translated)))
         (ret None)) |}.

(** [cfg.get(k)] *)
Definition cfg_get (cfg : gmap (list N) (option (list N))) (k : list N)
  : option (list N) :=
  default None (cfg !! k).

(** [selected = (cfg.get("provider") or "deepl").lower()] *)
Definition selected_name (cfg : gmap (list N) (option (list N))) : list N :=
  str_lower (str_or (cfg_get cfg (py "provider")) (py "deepl")).

Definition all_map (cfg : gmap (list N) (option (list N)))
  : list (list N * TranslationProvider) :=
  [ (py "deepl", DeepLProvider (cfg_get cfg (py "deepl_api_key")));
    (py "libre", LibreTranslateProvider (cfg_get cfg (py "libre_url"))
                                        (cfg_get cfg (py "libre_api_key")));
    (py "lingva", LingvaProvider (cfg_get cfg (py "lingva_url")));
    (py "simply", SimplyTranslateProvider (cfg_get cfg (py "simply_url"))) ].

(** [all_map[k]] *)
Definition subscript {A} (m : list (list N * A)) (k : list N) : outcome A :=
  match assoc k m with
  | Some v => Ret v
  | None => Raise KeyError
  end.

(** One turn of [for name in order: ...], on the chain built so far. *)
Definition chain_step (m : list (list N * TranslationProvider))
    (acc : outcome (list TranslationProvider)) (name : list N)
  : outcome (list TranslationProvider) :=
  match acc with
  | Raise e => Raise e
  | Ret chain =>
      match subscript m name with
      | Raise e => Raise e
      | Ret prov => Ret (if is_configured prov then chain ++ [prov] else chain)
      end
  end.

Definition build_provider_chain (cfg : gmap (list N) (option (list N)))
  : outcome (list TranslationProvider) :=
  let selected := selected_name cfg in
  let m := all_map cfg in
  let order := selected :: filter (λ k, k ≠ selected) (m.*1) in
  match foldl (chain_step m) (Ret []) order with
  | Raise e => Raise e
  | Ret [] => match subscript m selected with
              | Raise e => Raise e
              | Ret prov => Ret [prov]
              end
  | Ret chain => Ret chain
  end.

(** [await prov.translate(text, target_lang)], with its ghost event. *)
Definition invoke (prov : TranslationProvider) (text target_lang : list N)
  : M (option (list N * json)) :=
  log (EvTranslate (name prov) (is_configured prov));;
  translate prov text target_lang.

Fixpoint translate_via_chain (chain : list TranslationProvider)
    (text target_lang : list N) : M (option (list N * list N * list N)) :=
  match chain with
  | [] => ret None
  | prov :: chain' =>
      res ← invoke prov text target_lang;
      match res with
      | None => translate_via_chain chain' text target_lang
      | Some (detected, translated) =>
          match translated with
          | JStr t =>
              if nonempty (strip t) then ret (Some (name prov, detected, t))
              else translate_via_chain chain' text target_lang
          | _ => lift (Raise AttributeError)
          end
      end
  end.
End providers.

(** ** app.py: regular expressions *)

(** The patterns of [app.py] use no feature beyond the regular ones except
    the back-reference of [R_DATE], which ranges over three separators and is
    written out as an alternative. [fullmatch] is then membership in the
    language of the pattern, decided by derivatives. *)
Inductive regex :=
  | RNone
  | REps
  | RChr (p : N -> bool)
  | RCat (a b : regex)
  | RAlt (a b : regex)
  | RStar (a : regex).

Fixpoint nullable (r : regex) : bool :=
  match r with
  | RNone | RChr _ => false
  | REps | RStar _ => true
  | RCat a b => nullable a && nullable b
  | RAlt a b => nullable a || nullable b
  end.

Fixpoint deriv (c : N) (r : regex) : regex :=
  match r with
  | RNone | REps => RNone
  | RChr p => if p c then REps else RNone
  | RCat a b => RAlt (RCat (deriv c a) b) (if nullable a then deriv c b else RNone)
  | RAlt a b => RAlt (deriv c a) (deriv c b)
  | RStar a => RCat (deriv c a) (RStar a)
  end.

Definition fullmatch (r : regex) (s : list N) : bool :=
  nullable (foldl (λ r c, deriv c r) r s).

Definition ropt (r : regex) : regex := RAlt REps r.

Fixpoint rtimes (n : nat) (r : regex) : regex :=
  match n with O => REps | S n' => RCat r (rtimes n' r) end.

Fixpoint rupto (n : nat) (r : regex) : regex :=
  match n with O => REps | S n' => ropt (RCat r (rupto n' r)) end.

(** [r{m,n}] and [r{m,}] *)
Definition rrange (m n : nat) (r : regex) : regex := RCat (rtimes m r) (rupto (n - m) r).
Definition ratleast (m : nat) (r : regex) : regex := RCat (rtimes m r) (RStar r).

Definition rlit (c : N) : regex := RChr (N.eqb c).
Definition rset (cs : list N) : regex := RChr (λ c, bool_decide (c ∈ cs)).
Fixpoint rseq (rs : list regex) : regex :=
  match rs with [] => REps | r :: rs' => RCat r (rseq rs') end.

Section patterns.
Context {U : Unicode}.

Definition r_d : regex := RChr isdecimal.
Definition r_s : regex := RStar (RChr isspace).

(** [^\s*\d{1,4}\s*/\s*\d{1,4}\s*$] *)
Definition R_SCORE : regex :=
  rseq [r_s; rrange 1 4 r_d; r_s; rlit 47; r_s; rrange 1 4 r_d; r_s].

(** [^\s*[+\-]?\d+(?:[.,]\d+)?\s*%?\s*$] *)
Definition R_NUMBER : regex :=
  rseq [r_s; ropt (rset (py "+-")); ratleast 1 r_d;
        ropt (RCat (rset (py ".,")) (ratleast 1 r_d)); r_s; ropt (rlit 37); r_s].

(** [^\s*\d{1,2}:\d{2}(:\d{2})?\s*$] *)
Definition R_TIME : regex :=
  rseq [r_s; rrange 1 2 r_d; rlit 58; rtimes 2 r_d;
        ropt (RCat (rlit 58) (rtimes 2 r_d)); r_s].

Definition date_with (sep : N) : regex :=
  rseq [rlit sep; rrange 1 2 r_d; rlit sep].

(** [^\s*\d{1,4}([/\-\.])\d{1,2}\1\d{1,4}\s*$] *)
Definition R_DATE : regex :=
  rseq [r_s; rrange 1 4 r_d;
        RAlt (date_with 47) (RAlt (date_with 45) (date_with 46));
        rrange 1 4 r_d; r_s].

(** [^\s*[\d\-\+\(\)\[\]\s]{5,}\s*$] *)
Definition R_MIXED_NUM : regex :=
  rseq [r_s;
        ratleast 5 (RChr (λ c, isdecimal c || bool_decide (c ∈ py "-+()[]") || isspace c));
        r_s].
End patterns.

(** ** app.py: configuration read from the environment *)

(** The module-level constants of [app.py], as they stand once the module is
    loaded. *)
Record env := {
  DEFAULT_PROVIDER : list N;
  DEFAULT_DEEPL_KEY : list N;
  DEFAULT_LIBRE_URL : list N;
  DEFAULT_LIBRE_KEY : list N;
  DEFAULT_LINGVA_URL : list N;
  DEFAULT_SIMPLY_URL : list N;
  MAX_INPUT_CHARS : Z;
  SHOW_SOURCE_LANG : bool;
  IGNORE_NUMERIC_LIKE : bool;
  AUTO_MIN_WORDS : Z;
  ENV_BLACKLIST : gset (list N);
  SKIP_ROMAN_HINDI : bool;
  ROMAN_HINDI_STOPWORDS : list (list N);
  ROMAN_HINDI_MIN_MATCHES : Z;
}.

(** ** app.py: the text classifier *)

(** [re.findall(p+, s)] for a character class [p]: the maximal runs. *)
Fixpoint runs (p : N -> bool) (cur : list N) (s : list N) : list (list N) :=
  match s with
  | [] => match cur with [] => [] | _ => [reverse cur] end
  | c :: s' =>
      if p c then runs p (c :: cur) s'
      else match cur with
           | [] => runs p [] s'
           | _ => reverse cur :: runs p [] s'
           end
  end.

(** [re.sub(r"\s+", " ", s)] *)
Fixpoint sub_spaces (in_run : bool) (s : list N) : list N :=
  match s with
  | [] => []
  | c :: s' =>
      if isspace c then (if in_run then sub_spaces true s' else 32 :: sub_spaces true s')
      else c :: sub_spaces false s'
  end.

Section classifier.
Context {U : Unicode}.

Definition looks_numeric_like (t : list N) : bool :=
  if negb (nonempty t) then true else
  let tt := strip t in
  let alpha := length (filter (λ c, isalpha c = true) tt) in
  if bool_decide (alpha = O) then true else
  if existsb (λ r, fullmatch r tt) [R_SCORE; R_NUMBER; R_TIME; R_DATE; R_MIXED_NUM]
  then true else false.

Definition has_non_ascii_letter (s : list N) : bool :=
  existsb (λ c, (127 <? c) && isalpha c) s.

(** [\b\w+\b] matches exactly the maximal runs of word characters. *)
Definition word_count (s : list N) : Z :=
  Z.of_nat (length (runs (λ c, isalnum c || (c =? 95)) [] s)).

Definition normalize (s : list N) : list N :=
  str_lower (strip (sub_spaces false s)).

Definition ascii_only (s : list N) : bool := forallb (λ c, c <? 128) s.

Definition is_roman_hindi (e : env) (s : list N) : bool :=
  if negb (SKIP_ROMAN_HINDI e) then false else
  let t := str_lower s in
  if negb (nonempty (strip t)) || negb (ascii_only t) then false else
  let toks := runs (in_range 97 122) [] t in
  let hits := length (filter (λ w, w ∈ toks) (ROMAN_HINDI_STOPWORDS e)) in
  bool_decide (ROMAN_HINDI_MIN_MATCHES e ≤ Z.of_nat hits)%Z.

Definition skip_reason (e : env) (text : list N) (force : bool) : option (list N) :=
  if negb (nonempty (strip text)) then Some (py "blank") else
  if bool_decide (MAX_INPUT_CHARS e < Z.of_nat (length text))%Z
  then Some (py "too_long:" ++ str_of_N (N.of_nat (length text))) else
  if IGNORE_NUMERIC_LIKE e && looks_numeric_like text then Some (py "numeric_like") else
  if negb force && is_roman_hindi e text then Some (py "roman_hindi") else
  if negb force && bool_decide (word_count text < AUTO_MIN_WORDS e)%Z
     && negb (has_non_ascii_letter text)
  then Some (py "low_signal") else
  None.
End classifier.

(** ** app.py: the orchestrator *)

Section pipeline.
Context {U : Unicode} {B : Backend}.

(** [if guild_id:] on an [Optional[int]] *)
Definition given (guild_id : option Z) : option Z :=
  match guild_id with
  | Some g => if (g =? 0)%Z then None else Some g
  | None => None
  end.

Definition guild_blacklist (e : env) (guild_id : option Z) : M (gset (list N)) :=
  match given guild_id with
  | Some g =>
      per ← on_data (λ d, (list_blacklist g d, d));
      ret (ENV_BLACKLIST e ∪ list_to_set per)
  | None => ret (ENV_BLACKLIST e)
  end.

(** The dictionary literal that opens the settings merge. *)
Definition default_settings (e : env) : gmap (list N) (option (list N)) :=
  list_to_map
    [ (py "provider", Some (DEFAULT_PROVIDER e));
      (py "deepl_api_key", Some (DEFAULT_DEEPL_KEY e));
      (py "libre_url", Some (DEFAULT_LIBRE_URL e));
      (py "libre_api_key", Some (DEFAULT_LIBRE_KEY e));
      (py "lingva_url", Some (DEFAULT_LINGVA_URL e));
      (py "simply_url", Some (DEFAULT_SIMPLY_URL e)) ].

(** [provider_settings.update(st)]: every key of [st] is written. *)
Definition dict_update {A} (base st : gmap (list N) A) : gmap (list N) A := st ∪ base.

Definition provider_settings (e : env) (guild_id : option Z)
  : M (gmap (list N) (option (list N))) :=
  match given guild_id with
  | Some g =>
      st ← on_data (get_settings g);
      ret (dict_update (default_settings e) st)
  | None => ret (default_settings e)
  end.

(** The steps of [translate_pipeline] that follow a successful dispatch. *)
Definition post_filter (e : env) (guild_id : option Z) (text : list N)
    (apply_blacklist : bool) (result : list N * list N * list N)
  : M (option (list N * list N * list N)) :=
  let '(provider_name, detected, translated) := result in
  blacklisted ← (if apply_blacklist then
                   bl ← guild_blacklist e guild_id;
                   ret (nonempty detected && bool_decide (str_upper detected ∈ bl))
                 else ret false);
  (if (blacklisted : bool) then ret None else
   if startswith (py "EN") (str_upper detected) then ret None else
   if bool_decide (normalize translated = normalize text) then ret None else
   let header :=
     if SHOW_SOURCE_LANG e && nonempty detected
     then py "Translated from " ++ str_upper detected ++ py " via " ++ provider_name
          ++ py ":" ++ [10]
     else [] in
   ret (Some (provider_name, str_upper detected, header ++ translated)))
  : M (option (list N * list N * list N)).

Definition translate_pipeline (e : env) (guild_id : option Z) (text : list N)
    (force apply_blacklist : bool) : M (option (list N * list N * list N)) :=
  match skip_reason e text force with
  | Some (_ :: _) => ret None
  | _ =>
      settings ← provider_settings e guild_id;
      chain ← lift (build_provider_chain settings);
      result ← translate_via_chain chain text (py "EN-US");
      match result with
      | None => ret None
      | Some r => post_filter e guild_id text apply_blacklist r
      end
  end.
End pipeline.

(** ** Sequences of store operations *)

Inductive store_op :=
  | AddChannel (guild_id channel_id : Z)
  | RemoveChannel (guild_id channel_id : Z)
  | AddBlacklist (guild_id : Z) (code : list N)
  | RemoveBlacklist (guild_id : Z) (code : list N).

Section store_ops.
Context {U : Unicode}.

Definition apply_op (d : document) (o : store_op) : document :=
  match o with
  | AddChannel g c => add_channel g c d
  | RemoveChannel g c => remove_channel g c d
  | AddBlacklist g code => add_blacklist g code d
  | RemoveBlacklist g code => remove_blacklist g code d
  end.

(** The store reached from a new [ConfigStore] by a sequence of calls. *)
Definition run_ops (ops : list store_op) : document := foldl apply_op _DEFAULT ops.

(** A code is upper-cased when [code.upper() == code]. *)
Definition upper_cased (code : list N) : Prop := str_upper code = code.

Definition store_ok (d : document) : Prop :=
  (∀ g l, guilds d !! g = Some l → NoDup l)
  ∧ (∀ g l, blacklist d !! g = Some l → NoDup l ∧ Forall upper_cased l).
End store_ops.

(** The value [update_settings] is given for field [k]: the last keyword
    argument named [k] whose value is not [None]. *)
Definition supplied (kwargs : list (list N * option (list N))) (k : list N)
  : option (list N) :=
  foldl (λ acc kv, match kv.2 with
                   | Some v => if bool_decide (kv.1 = k) then Some v else acc
                   | None => acc
                   end) None kwargs.

(** ** Inputs of the examples *)

(** A world without network: every request fails. *)
Definition offline : Backend := {|
  world := unit;
  httpx_AsyncClient _ w := (None, w);
  httpx_aclose w := (None, w);
  http_send _ w := (NoResponse, w);
  deepl_new _ := true;
  deepl_translateText _ _ _ w := (DeeplError, w);
|}.

(** The constants of [app.py] when no environment variable is set. *)
Definition default_env : env := {|
  DEFAULT_PROVIDER := py "deepl";
  DEFAULT_DEEPL_KEY := [];
  DEFAULT_LIBRE_URL := [];
  DEFAULT_LIBRE_KEY := [];
  DEFAULT_LINGVA_URL := [];
  DEFAULT_SIMPLY_URL := [];
  MAX_INPUT_CHARS := 1800;
  SHOW_SOURCE_LANG := true;
  IGNORE_NUMERIC_LIKE := true;
  AUTO_MIN_WORDS := 2;
  ENV_BLACKLIST := ∅;
  SKIP_ROMAN_HINDI := true;
  ROMAN_HINDI_STOPWORDS :=
    py <$> ["kuch"; "bhi"; "apne"; "apna"; "apni"; "hisab"; "mat"; "karo"; "kr";
            "karen"; "hai"; "hota"; "hoti"; "hote"; "ye"; "yaar"; "bhai"; "nahi";
            "nahin"; "kyu"; "kyun"; "kya"; "mera"; "meri"; "mere"; "tera"; "teri";
            "tere"; "hum"; "ham"; "tha"; "thi"; "the"; "vo"; "woh"; "se"; "ko";
            "mein"; "me"]%string;
  ROMAN_HINDI_MIN_MATCHES := 2;
|}.

(** The same with [LIBRE_URL=http://lt] and a given [BLACKLIST_LANGS]. *)
Definition libre_env (codes : gset (list N)) : env := {|
  DEFAULT_PROVIDER := py "deepl";
  DEFAULT_DEEPL_KEY := [];
  DEFAULT_LIBRE_URL := py "http://lt";
  DEFAULT_LIBRE_KEY := [];
  DEFAULT_LINGVA_URL := [];
  DEFAULT_SIMPLY_URL := [];
  MAX_INPUT_CHARS := 1800;
  SHOW_SOURCE_LANG := true;
  IGNORE_NUMERIC_LIKE := true;
  AUTO_MIN_WORDS := 2;
  ENV_BLACKLIST := codes;
  SKIP_ROMAN_HINDI := true;
  ROMAN_HINDI_STOPWORDS := ROMAN_HINDI_STOPWORDS default_env;
  ROMAN_HINDI_MIN_MATCHES := 2;
|}.

Definition env_with_libre : env := libre_env {[ py "FR" ]}.

Definition start {B : Backend} (d : document) (w : world) : state :=
  {| st_data := d; st_world := w; st_trace := [] |}.

(** ** The chain builder and the dispatcher in the words of the specification *)

(** The four provider variants. *)
Inductive provider_kind := Deepl | Libre | Lingva | Simply.

#[global] Instance provider_kind_eq_dec : EqDecision provider_kind.
Proof. solve_decision. Defined.

Definition kind_name (k : provider_kind) : list N :=
  match k with
  | Deepl => py "deepl"
  | Libre => py "libre"
  | Lingva => py "lingva"
  | Simply => py "simply"
  end.

(** The fixed canonical order of the variants. *)
Definition canonical_order : list provider_kind := [Deepl; Libre; Lingva; Simply].

(** The selected variant first, then the remaining ones in canonical order. *)
Definition priority (selected : provider_kind) : list provider_kind :=
  selected :: filter (λ k, k ≠ selected) canonical_order.

Section chain_words.
Context {U : Unicode} {B : Backend}.

(** The variant of each kind, constructed from the merged settings. *)
Definition variant (cfg : gmap (list N) (option (list N))) (k : provider_kind)
  : TranslationProvider :=
  match k with
  | Deepl => DeepLProvider (cfg_get cfg (py "deepl_api_key"))
  | Libre => LibreTranslateProvider (cfg_get cfg (py "libre_url"))
                                    (cfg_get cfg (py "libre_api_key"))
  | Lingva => LingvaProvider (cfg_get cfg (py "lingva_url"))
  | Simply => SimplyTranslateProvider (cfg_get cfg (py "simply_url"))
  end.

(** The kinds whose variant is configured, in priority order. *)
Definition configured_kinds (cfg : gmap (list N) (option (list N)))
    (selected : provider_kind) : list provider_kind :=
  filter (λ k, is_configured (variant cfg k) = true) (priority selected).

(** The settings name the provider [selected]: their [provider] field holds
    a spelling of its name, in any letter case, or it is absent, null or
    empty and [selected] is the provider of the default name. *)
Definition names_provider (cfg : gmap (list N) (option (list N)))
    (selected : provider_kind) : Prop :=
  match cfg !! py "provider" with
  | Some (Some (c :: p)) => str_lower (c :: p) = kind_name selected
  | _ => str_lower (py "deepl") = kind_name selected
  end.

(** A provider's answer is no success for the dispatcher: it is absent, or
    its translated text is empty once trimmed. *)
Definition declined (res : option (list N * json)) : Prop :=
  res = None ∨ ∃ detected t, res = Some (detected, JStr t) ∧ strip t = [].

(** [declines text target chain s s']: called one after the other from
    state [s], in the order of [chain], every provider returns an answer
    that is no success, and the last call leaves the state [s']. *)
Inductive declines (text target_lang : list N)
  : list TranslationProvider → state → state → Prop :=
  | declines_nil s : declines text target_lang [] s s
  | declines_cons prov chain s s1 s2 res :
      invoke prov text target_lang s = (Ret res, s1) →
      declined res →
      declines text target_lang chain s1 s2 →
      declines text target_lang (prov :: chain) s s2.

(** Providers with a fixed behaviour, for the examples. *)
Definition failing_provider (n : list N) : TranslationProvider :=
  {| name := n; is_configured := true; translate _ _ := ret None |}.

Definition answering_provider (n detected translated : list N) : TranslationProvider :=
  {| name := n; is_configured := true;
     translate _ _ := ret (Some (detected, JStr translated)) |}.
End chain_words.


(** ** Reading the ghost trace *)

(** An event other than the entry into a provider's [translate]: a call that
    leaves the process. *)
Definition outbound (e : event) : Prop :=
  match e with
  | EvTranslate _ _ => False
  | _ => True
  end.

(** [appends P c]: from whatever state, running [c] leaves the trace it found
    followed by events that satisfy [P]. *)
Definition appends {B : Backend} {A} (P : event → Prop) (c : M A) : Prop :=
  ∀ s, ∃ evs, st_trace (c s).2 = st_trace s ++ evs ∧ Forall P evs.

(** A self-hosted back-end at [http://lt] whose [/detect] endpoint is out of
    order and whose [/translate] endpoint answers. *)
Definition libre_without_detect : Backend := {|
  world := unit;
  httpx_AsyncClient _ w := (None, w);
  httpx_aclose w := (None, w);
  http_send r w :=
    (if bool_decide (req_url r = py "http://lt/translate")
     then Response 200 (Some (JObj [(py "translatedText", JStr (py "hello everyone"))]))
     else Response 503 None, w);
  deepl_new _ := true;
  deepl_translateText _ _ _ w := (DeeplError, w);
|}.

(** The same back-end with a working [/detect] endpoint that reports French. *)
Definition libre_french : Backend := {|
  world := unit;
  httpx_AsyncClient _ w := (None, w);
  httpx_aclose w := (None, w);
  http_send r w :=
    (if bool_decide (req_url r = py "http://lt/translate")
     then Response 200 (Some (JObj [(py "translatedText", JStr (py "hello everyone"))]))
     else Response 200 (Some (JArr [JObj [(py "language", JStr (py "fr"))]])), w);
  deepl_new _ := true;
  deepl_translateText _ _ _ w := (DeeplError, w);
|}.

(** A back-end whose payload holds [null] where the translation should be. *)
Definition libre_null_translation : Backend := {|
  world := unit;
  httpx_AsyncClient _ w := (None, w);
  httpx_aclose w := (None, w);
  http_send r w := (Response 200 (Some (JObj [(py "translatedText", JNull)])), w);
  deepl_new _ := true;
  deepl_translateText _ _ _ w := (DeeplError, w);
|}.

(** A machine on which no HTTP client can be built, as when a proxy variable
    of the environment cannot be parsed; the back-end itself is the one of
    [libre_french]. *)
Definition no_client : Backend := {|
  world := unit;
  httpx_AsyncClient _ w := (Some BackendError, w);
  httpx_aclose w := (None, w);
  http_send r w :=
    (if bool_decide (req_url r = py "http://lt/translate")
     then Response 200 (Some (JObj [(py "translatedText", JStr (py "hello everyone"))]))
     else Response 200 (Some (JArr [JObj [(py "language", JStr (py "fr"))]])), w);
  deepl_new _ := true;
  deepl_translateText _ _ _ w := (DeeplError, w);
|}.

(** ** Conditions on the outside world *)

(** Every HTTP client can be built, entered and closed. *)
Definition clients_work {B : Backend} : Prop :=
  (∀ timeout w, (httpx_AsyncClient timeout w).1 = None)
  ∧ (∀ w, (httpx_aclose w).1 = None).

(** The task is never cancelled while it waits for a back-end. *)
Definition never_cancelled {B : Backend} : Prop :=
  (∀ r w, (http_send r w).1 ≠ Cancelled)
  ∧ (∀ key text target_lang w,
       (deepl_translateText key text target_lang w).1 ≠ DeeplCancelled).

(** [raises P c]: whatever [c] raises satisfies [P]. *)
Definition raises {B : Backend} {A} (P : exn → Prop) (c : M A) : Prop :=
  ∀ s e s', c s = (Raise e, s') → P e.

(** * More of the code *)

(** ** Readings of a string *)

(** The number a string of decimal digits denotes. *)
Definition digits_val (s : list N) : N := foldl (λ a d, 10 * a + (d - 48)) 0 s.

(** ** More readings of a run *)

(** The outbound calls, as a test. *)
Definition is_outbound (e : event) : bool :=
  match e with
  | EvTranslate _ _ => false
  | _ => true
  end.

(** [at_most n c]: from whatever state, running [c] leaves the trace it found
    followed by events of which at most [n] are outbound calls. *)
Definition at_most {B : Backend} {A} (n : nat) (c : M A) : Prop :=
  ∀ s, ∃ evs, st_trace (c s).2 = st_trace s ++ evs
              ∧ (length (filter (λ e, is_outbound e = true) evs) ≤ n)%nat.

(** [returns P c]: whenever [c] returns a value, the value satisfies [P]. *)
Definition returns {B : Backend} {A} (P : A → Prop) (c : M A) : Prop :=
  ∀ s a s', c s = (Ret a, s') → P a.

(** [keeps_data c]: running [c] leaves the configuration document as it is. *)
Definition keeps_data {B : Backend} {A} (c : M A) : Prop :=
  ∀ s, st_data (c s).2 = st_data s.

(** The outbound calls one run of a variant's [translate] can make. *)
Definition calls (k : provider_kind) : nat :=
  match k with
  | Libre => 2
  | _ => 1
  end.

(** No back-end answers: the HTTP clients work and the task is not
    cancelled, but every request fails or comes back with a status other
    than 200, and the DeepL client raises. *)
Definition all_down {B : Backend} : Prop :=
  clients_work
  ∧ (∀ r w, (http_send r w).1 = NoResponse
            ∨ ∃ status_code body, (http_send r w).1 = Response status_code body
                                  ∧ status_code ≠ 200%Z)
  ∧ (∀ key text target_lang w, (deepl_translateText key text target_lang w).1 = DeeplError).

(** The kinds of the chain [build_provider_chain] returns. *)
Definition chain_kinds {U : Unicode} {B : Backend} (cfg : gmap (list N) (option (list N)))
    (selected : provider_kind) : list provider_kind :=
  match configured_kinds cfg selected with
  | [] => [selected]
  | kinds => kinds
  end.

(** The set [guild_blacklist] builds, as a function of the document. *)
Definition effective_blacklist {U : Unicode} (e : env) (guild_id : option Z)
    (d : document) : gset (list N) :=
  match given guild_id with
  | Some g => ENV_BLACKLIST e ∪ list_to_set (list_blacklist g d)
  | None => ENV_BLACKLIST e
  end.

(** The header [translate_pipeline] puts before a translation. *)
Definition header {U : Unicode} (e : env) (provider_name detected : list N) : list N :=
  if SHOW_SOURCE_LANG e && nonempty detected
  then py "Translated from " ++ str_upper detected ++ py " via " ++ provider_name
       ++ py ":" ++ [10]
  else [].

(** Settings in which both Lingva at [http://lg] and LibreTranslate at
    [http://lt] are set up, for the examples. *)
Definition two_providers : gmap (list N) (option (list N)) :=
  list_to_map [ (py "provider", Some (py "lingva"));
                (py "lingva_url", Some (py "http://lg"));
                (py "libre_url", Some (py "http://lt")) ].

(** A translation that is no string. *)
Definition not_a_string (v : json) : Prop :=
  match v with
  | JStr _ => False
  | _ => True
  end.




(** ** Readings of a pipeline run *)

(** The settings [translate_pipeline] hands to [build_provider_chain], as a
    function of the document it finds. *)
Definition merged_settings (e : env) (guild_id : option Z) (d : document)
  : gmap (list N) (option (list N)) :=
  match given guild_id with
  | Some g => dict_update (default_settings e) (get_settings g d).1
  | None => default_settings e
  end.

(** The document the settings merge leaves behind. *)
Definition after_merge (guild_id : option Z) (d : document) : document :=
  match given guild_id with
  | Some g => (get_settings g d).2
  | None => d
  end.

(** A state with another document. *)
Definition with_data {B : Backend} (d : document) (s : state) : state :=
  {| st_data := d; st_world := st_world s; st_trace := st_trace s |}.

(** What [post_filter] returns for a dispatch result, as a function of the
    document it reads the blacklist from. *)
Definition filtered {U : Unicode} (e : env) (guild_id : option Z) (text : list N)
    (apply_blacklist : bool) (result : list N * list N * list N) (d : document)
  : option (list N * list N * list N) :=
  let '(provider_name, detected, translated) := result in
  if apply_blacklist && nonempty detected
     && bool_decide (str_upper detected ∈ effective_blacklist e guild_id d)
  then None
  else if startswith (py "EN") (str_upper detected) then None
  else if bool_decide (normalize translated = normalize text) then None
  else Some (provider_name, str_upper detected,
             header e provider_name detected ++ translated).

(** ** Readings of a pattern *)

(** A pattern that matches nothing, by its shape. *)
Fixpoint void (r : regex) : bool :=
  match r with
  | RNone => true
  | REps | RChr _ | RStar _ => false
  | RCat a b => void a || void b
  | RAlt a b => void a && void b
  end.

(** [chars_in q r]: every character class of [r] lies within [q]. *)
Fixpoint chars_in (q : N → bool) (r : regex) : Prop :=
  match r with
  | RNone | REps => True
  | RChr p => ∀ c, p c = true → q c = true
  | RCat a b | RAlt a b => chars_in q a ∧ chars_in q b
  | RStar a => chars_in q a
  end.

(** The reasons only automatic mode gives. *)
Definition auto_only (why : list N) : bool :=
  bool_decide (why = py "roman_hindi") || bool_decide (why = py "low_signal").

(** ** app.py: replies *)

(** The values of [range(i, stop, step)] for a positive [step]; [fuel]
    bounds their number. *)
Fixpoint range_from (fuel i stop step : nat) : list nat :=
  match fuel with
  | O => []
  | S fuel' => if (i <? stop)%nat then i :: range_from fuel' (i + step) stop step else []
  end.

(** [chunk(s, size)]: [range] raises [ValueError] for a step of zero
    ([None]) and is empty for a negative one. *)
Definition chunk (s : list N) (size : Z) : option (list (list N)) :=
  if (size =? 0)%Z then None
  else if (size <? 0)%Z then Some []
  else
    let size := Z.to_nat size in
    Some ((λ i, take size (drop i s)) <$> range_from (length s) 0 (length s) size).

(** What [reply_translation] hands to Discord: a reply to the message, then
    plain messages to its channel. *)
Inductive delivery :=
  | Reply (part : list N)
  | Send (part : list N).

(** [reply_translation]: [parts[0]] raises [IndexError] on an empty list
    ([None]). *)
Definition reply_translation (composed : list N) : option (list delivery) :=
  match chunk composed 1900 with
  | None => None
  | Some [] => None
  | Some (p :: parts) => Some (Reply p :: (Send <$> parts))
  end.

(** The text of a delivery. *)
Definition part_of (x : delivery) : list N :=
  match x with
  | Reply p | Send p => p
  end.

(** ** app.py: the settings commands *)

(** The commands of [SettingsGroup] that write. Each is given the outcome of
    its permission check and the tenant, and returns the message it answers
    with and the document it leaves behind. *)
Section settings_commands.
Context {U : Unicode}.

Definition denied (d : document) : list N * document :=
  (py "Need Manage Server permission.", d).

Definition set_provider (perm : bool) (guild_id : Z) (provider : list N) (d : document)
  : list N * document :=
  if negb perm then denied d else
  let provider := str_lower provider in
  if negb (bool_decide (provider ∈ [py "deepl"; py "libre"; py "lingva"; py "simply"]))
  then (py "Invalid provider.", d)
  else (py "Provider set to " ++ provider,
        (update_settings guild_id [(py "provider", Some provider)] d).2).

Definition set_deepl_key (perm : bool) (guild_id : Z) (key : list N) (d : document)
  : list N * document :=
  if negb perm then denied d else
  (py "DeepL key updated (masked in status).",
   (update_settings guild_id [(py "deepl_api_key", Some (strip key))] d).2).

Definition set_libre_url (perm : bool) (guild_id : Z) (url : list N) (d : document)
  : list N * document :=
  if negb perm then denied d else
  (py "Libre URL set.",
   (update_settings guild_id [(py "libre_url", Some (strip url))] d).2).

Definition set_libre_key (perm : bool) (guild_id : Z) (key : list N) (d : document)
  : list N * document :=
  if negb perm then denied d else
  (py "Libre key updated.",
   (update_settings guild_id [(py "libre_api_key", Some (strip key))] d).2).

Definition set_lingva_url (perm : bool) (guild_id : Z) (url : list N) (d : document)
  : list N * document :=
  if negb perm then denied d else
  (py "Lingva URL set.",
   (update_settings guild_id [(py "lingva_url", Some (strip url))] d).2).

Definition set_simply_url (perm : bool) (guild_id : Z) (url : list N) (d : document)
  : list N * document :=
  if negb perm then denied d else
  (py "Simply URL set.",
   (update_settings guild_id [(py "simply_url", Some (strip url))] d).2).
End settings_commands.

(** One use of a settings command. *)
Inductive settings_command :=
  | SetProvider (provider : list N)
  | SetDeeplKey (key : list N)
  | SetLibreUrl (url : list N)
  | SetLibreKey (key : list N)
  | SetLingvaUrl (url : list N)
  | SetSimplyUrl (url : list N).

Definition run_command {U : Unicode} (d : document) (use : bool * Z * settings_command)
  : document :=
  let '(perm, guild_id, c) := use in
  match c with
  | SetProvider provider => (set_provider perm guild_id provider d).2
  | SetDeeplKey key => (set_deepl_key perm guild_id key d).2
  | SetLibreUrl url => (set_libre_url perm guild_id url d).2
  | SetLibreKey key => (set_libre_key perm guild_id key d).2
  | SetLingvaUrl url => (set_lingva_url perm guild_id url d).2
  | SetSimplyUrl url => (set_simply_url perm guild_id url d).2
  end.

(** Every provider name stored is one of the four. *)
Definition provider_known (d : document) : Prop :=
  ∀ g st v, settings d !! g = Some st → st !! py "provider" = Some v →
            ∃ k, v = Some (kind_name k).

(** ** Readings of a text *)

(** A surrogate code point, which UTF-8 refuses. *)
Definition surrogate (c : N) : bool := in_range 55296 57343 c.

(** A code point of a Python string: at most U+10FFFF. *)
Definition code_point (c : N) : Prop := c ≤ 1114111.

(** ** app.py: mentions *)

Section mentions.
Context {U : Unicode}.

(** A match of [MENTION_RE], that is [<@!?\d+>], at the head of [s]: the
    text that follows it. The pattern leaves the matcher no choice: [!?]
    takes the [!] when there is one (a digit has to follow), and [\d+] takes
    every digit (a [>] has to follow). *)
Definition after_mention (s : list N) : option (list N) :=
  match s with
  | lt :: at_sign :: s1 =>
      if negb ((lt =? 60) && (at_sign =? 64)) then None else
      let s2 := match s1 with
                | c :: s2 => if c =? 33 then s2 else s1
                | [] => s1
                end in
      match takewhile isdecimal s2, dropwhile isdecimal s2 with
      | _ :: _, gt :: rest => if gt =? 62 then Some rest else None
      | _, _ => None
      end
  | _ => None
  end.

(** [MENTION_RE.sub("", s)]: the matches are looked for from left to right
    and do not overlap. [fuel] bounds the length of [s]. *)
Fixpoint sub_mentions (fuel : nat) (s : list N) : list N :=
  match fuel with
  | O => s
  | S fuel' =>
      match s with
      | [] => []
      | c :: s' =>
          match after_mention s with
          | Some rest => sub_mentions fuel' rest
          | None => c :: sub_mentions fuel' s'
          end
      end
  end.

Definition strip_bot_mention (text : option (list N)) : list N :=
  let text := str_or text [] in
  strip (sub_mentions (length text) text).
End mentions.

(** ** app.py: a message arrives *)

(** What [on_message] reads of a message. *)
Record message := {
  author_bot : bool;
  dm_channel : bool;
  guild : option Z;
  channel_id : Z;
  content : option (list N);
  mentions_bot : bool;
}.

(** The two constants of [app.py] only [on_message] reads. *)
Record switches := {
  ENABLE_DMS : bool;
  ONLY_WHEN_MENTIONED : bool;
}.

Section events.
Context {U : Unicode} {B : Backend}.

(** [bot.process_commands], which belongs to the Discord library and runs
    whatever prefix command the message holds. *)
Variable process_commands : message → M unit.

(** [on_message] returns what it hands to Discord. [mentions_bot] is
    [bot.user and bot.user in message.mentions]. An [IndexError] of
    [reply_translation] would end in the handler like any other exception,
    with nothing delivered. *)
Definition on_message (sw : switches) (e : env) (message : message) : M (list delivery) :=
  try_except
    (if author_bot message then ret [] else
     process_commands message;;
     if dm_channel message && negb (ENABLE_DMS sw) then ret [] else
     match guild message with
     | None => ret []
     | Some guild_id =>
         enabled ← on_data (λ d, (has_channel guild_id (channel_id message) d, d));
         if negb (enabled : bool) then ret [] else
         let content := str_or (content message) [] in
         if ONLY_WHEN_MENTIONED sw && negb (mentions_bot message) then ret [] else
         let content := if ONLY_WHEN_MENTIONED sw
                        then strip_bot_mention (Some content) else content in
         res ← translate_pipeline e (Some guild_id) content false true;
         match res with
         | None => ret []
         | Some (_, _, composed) => ret (default [] (reply_translation composed))
         end
     end)
    (ret []).
End events.
(** * Properties *)

(** ** Strings *)

Lemma Forall_dropwhile {A} (P : A → Prop) (p : A → bool) (l : list A) :
  Forall P l → Forall P (dropwhile p l).
Proof.
  induction 1 as [|x l Hx Hl IH]; simpl; [constructor|].
  destruct (p x); [exact IH | by constructor].
Qed.

Lemma Forall_strip (P : N → Prop) (s : list N) : Forall P s → Forall P (strip s).
Proof.
  intros Hs. unfold strip, rstrip, lstrip.
  apply Forall_reverse, Forall_dropwhile, Forall_reverse, Forall_dropwhile, Hs.
Qed.

Section upper.
Context {U : Unicode}.

(** Upper-casing an upper-case letter gives the letter back. *)
Hypothesis upper_stable : ∀ c d, d ∈ upper_char c → upper_char d = [d].

Lemma str_upper_fixed (s : list N) :
  Forall (λ c, upper_char c = [c]) s → str_upper s = s.
Proof.
  unfold str_upper. induction 1 as [|c s Hc Hs IH]; [done|].
  rewrite bind_cons, Hc, IH. done.
Qed.

Lemma str_upper_chars (s : list N) : Forall (λ c, upper_char c = [c]) (str_upper s).
Proof.
  unfold str_upper. induction s as [|c s IH]; [constructor|].
  rewrite bind_cons. apply Forall_app. split; [|exact IH].
  apply Forall_forall. intros d Hd. by eapply upper_stable.
Qed.

Lemma upper_cased_strip_upper (code : list N) : upper_cased (strip (str_upper code)).
Proof. apply str_upper_fixed, Forall_strip, str_upper_chars. Qed.
End upper.

Lemma ascii_upper_stable c d :
  d ∈ upper_char (Unicode := ascii_tables) c → upper_char (Unicode := ascii_tables) d = [d].
Proof.
  simpl. intros ->%list_elem_of_singleton. f_equal.
  unfold ascii_upper_char, in_range.
  destruct (N.leb_spec 97 c), (N.leb_spec c 122); simpl;
    repeat match goal with
           | |- context [?a <=? ?b] => destruct (N.leb_spec a b); simpl
           end; lia.
Qed.

(** ** config_store.py: channel lists and blacklists *)

Lemma NoDup_append_if_absent (x : list N) (l : list (list N)) :
  NoDup l → NoDup (append_if_absent x l).
Proof.
  intros Hl. unfold append_if_absent. case_bool_decide as Hx; [done|].
  apply NoDup_app. split_and!; [done| |apply NoDup_singleton].
  intros y Hy ->%list_elem_of_singleton. done.
Qed.

Lemma NoDup_without (x : list N) (l : list (list N)) : NoDup l → NoDup (without x l).
Proof. apply NoDup_filter. Qed.

Lemma get_list_NoDup (m : gmap (list N) (list (list N))) (g : list N) :
  (∀ g l, m !! g = Some l → NoDup l) → NoDup (get_list m g).
Proof.
  intros Hm. unfold get_list. destruct (m !! g) as [l|] eqn:E; simpl.
  - by eapply Hm.
  - constructor.
Qed.

Lemma get_list_Forall (P : list N → Prop) (m : gmap (list N) (list (list N))) (g : list N) :
  (∀ g l, m !! g = Some l → Forall P l) → Forall P (get_list m g).
Proof.
  intros Hm. unfold get_list. destruct (m !! g) as [l|] eqn:E; simpl.
  - by eapply Hm.
  - constructor.
Qed.

Section store_invariant.
Context {U : Unicode}.
Hypothesis upper_stable : ∀ c d, d ∈ upper_char c → upper_char d = [d].

Lemma store_ok_default : store_ok _DEFAULT.
Proof. split; intros g l; simpl; rewrite lookup_empty; done. Qed.

Lemma apply_op_ok (d : document) (o : store_op) : store_ok d → store_ok (apply_op d o).
Proof.
  intros [Hg Hb].
  assert (Hbn : ∀ g l, blacklist d !! g = Some l → NoDup l) by (intros; by eapply Hb).
  assert (Hbu : ∀ g l, blacklist d !! g = Some l → Forall upper_cased l)
    by (intros; by eapply Hb).
  destruct o as [g c|g c|g code|g code]; simpl.
  - split; [|done]. intros g' l. simpl.
    rewrite lookup_insert. case_decide; [|by apply Hg].
    intros [= <-]. by apply NoDup_append_if_absent, get_list_NoDup.
  - split; [|done]. intros g' l. simpl.
    rewrite lookup_insert. case_decide; [|by apply Hg].
    intros [= <-]. by apply NoDup_without, get_list_NoDup.
  - unfold add_blacklist. destruct (nonempty _); simpl; [|done].
    split; [done|]. intros g' l. simpl.
    rewrite lookup_insert. case_decide; [|by apply Hb].
    intros [= <-]. split.
    + by apply NoDup_append_if_absent, get_list_NoDup.
    + unfold append_if_absent. case_bool_decide.
      * by apply get_list_Forall.
      * apply Forall_app. split; [by apply get_list_Forall|].
        repeat constructor. by apply upper_cased_strip_upper.
  - split; [done|]. intros g' l. simpl.
    rewrite lookup_insert. case_decide; [|by apply Hb].
    intros [= <-]. split.
    + by apply NoDup_without, get_list_NoDup.
    + apply Forall_forall. intros x [_ Hx]%list_elem_of_filter.
      eapply Forall_forall; [|exact Hx]. by apply get_list_Forall.
Qed.

(** C9. Starting from the empty store, after every sequence of
    [add_channel], [remove_channel], [add_blacklist] and [remove_blacklist]
    calls, no tenant's channel list or blacklist holds an entry twice, and
    every blacklisted code equals its own upper-casing. The Unicode tables
    are a parameter; what is used of them is that upper-casing a character
    yields characters that upper-casing leaves alone. *)
Theorem store_lists_invariant (ops : list store_op) : store_ok (run_ops ops).
Proof.
  unfold run_ops. generalize store_ok_default. generalize _DEFAULT.
  induction ops as [|o ops IH]; intros d Hd; simpl; [done|].
  apply IH. by apply apply_op_ok.
Qed.
End store_invariant.

Lemma store_lists_invariant_witness :
  store_ok (U := ascii_tables)
    (run_ops (U := ascii_tables)
       [AddBlacklist 7 (py "fr"); AddBlacklist 7 (py " FR "); AddChannel 7 42;
        AddChannel 7 42; RemoveBlacklist 7 (py "de"); RemoveChannel 7 5]).
Proof. apply (store_lists_invariant (U := ascii_tables) ascii_upper_stable). Defined.

(** ** config_store.py: settings *)

Lemma update_fields_lookup (kwargs : list (list N * option (list N)))
    (st0 st : gmap (list N) (option (list N))) (acc : option (list N)) (k : list N) :
  st !! k = match acc with Some v => Some (Some v) | None => st0 !! k end →
  update_fields kwargs st !! k
  = match foldl (λ acc kv, match kv.2 with
                           | Some v => if bool_decide (kv.1 = k) then Some v else acc
                           | None => acc
                           end) acc kwargs with
    | Some v => Some (Some v)
    | None => st0 !! k
    end.
Proof.
  unfold update_fields. revert st acc.
  induction kwargs as [|[k' [v|]] kwargs IH]; intros st acc Hst; simpl; [done| |].
  - apply IH. rewrite lookup_insert. case_bool_decide; case_decide; done.
  - by apply IH.
Qed.

(** C7 (amended). [update_settings] writes every supplied field whose value
    is not [None], an empty string included, and nothing else: a field that
    the update does not supply, or supplies as [None], keeps the value it
    had; the tenant's record in the document is the one returned; the other
    tenants, the channel lists and the blacklists are left alone. *)
Theorem update_settings_frame (guild_id : Z)
    (kwargs : list (list N * option (list N))) (d : document) :
  let old := default ∅ (settings d !! _g guild_id) in
  let r := update_settings guild_id kwargs d in
  (∀ k, r.1 !! k = match supplied kwargs k with
                   | Some v => Some (Some v)
                   | None => old !! k
                   end)
  ∧ settings r.2 !! _g guild_id = Some r.1
  ∧ (∀ g, g ≠ _g guild_id → settings r.2 !! g = settings d !! g)
  ∧ guilds r.2 = guilds d ∧ blacklist r.2 = blacklist d.
Proof.
  simpl. split_and!; try done.
  - intros k. unfold supplied. by apply update_fields_lookup.
  - by rewrite lookup_insert_eq.
  - intros g Hg. by rewrite !lookup_insert_ne.
Qed.

(** The spec's example: updating [provider] alone keeps [libre_url]. *)
Example update_settings_keeps_other_field :
  let d0 := (update_settings 7 [(py "provider", Some (py "deepl"));
                                (py "libre_url", Some (py "X"))] _DEFAULT).2 in
  let st := (update_settings 7 [(py "provider", Some (py "lingva"))] d0).1 in
  st !! py "provider" = Some (Some (py "lingva"))
  ∧ st !! py "libre_url" = Some (Some (py "X")).
Proof. vm_compute. done. Qed.

(** C7, as stated, fails: an empty-valued supplied field is merged too, and
    replaces what was stored. The store is the one reached by
    [/tr_settings set-libre-url X] followed by the same command with a blank
    argument, which [app.py] strips to the empty string. *)
Lemma update_settings_merges_empty_value :
  let d0 := (update_settings 7 [(py "libre_url", Some (py "X"))] _DEFAULT).2 in
  let st := (update_settings 7 [(py "libre_url", Some [])] d0).1 in
  (get_settings 7 d0).1 !! py "libre_url" = Some (Some (py "X"))
  ∧ st !! py "libre_url" = Some (Some []).
Proof. vm_compute. done. Qed.

(** C2: what [masked_settings] shows for a three-character secret is the
    secret itself followed by the ellipsis and its length. *)
Theorem masked_settings_shows_short_secret :
  let secret := py "abc" in
  let st : gmap (list N) (option (list N)) := {[ py "libre_api_key" := Some secret ]} in
  masked_settings st !! py "libre_api_key" = Some (Some (secret ++ [ELLIPSIS] ++ py "3"))
  ∧ substring secret (secret ++ [ELLIPSIS] ++ py "3").
Proof.
  split.
  - vm_compute. done.
  - exists [], ([ELLIPSIS] ++ py "3"). done.
Qed.

(** ** config_store.py: what masking hides *)

Lemma digits_go_length (fuel : nat) (n : N) (acc : list N) :
  (length (digits_go fuel n acc) ≤ length acc + 1 + N.to_nat (n / 10))%nat.
Proof.
  revert n acc. induction fuel as [|fuel IH]; intros n acc; cbn [digits_go length].
  { generalize (N.to_nat (n / 10)). intros; lia. }
  destruct (N.ltb_spec n 10) as [Hn|Hn]; cbn [length].
  { generalize (N.to_nat (n / 10)). intros; lia. }
  etrans; [apply IH|]. cbn [length].
  assert (n / 10 / 10 < n / 10) as Hlt.
  { apply N.div_lt; [|lia]. apply N.div_str_pos. lia. }
  revert Hlt. generalize (n / 10 / 10) (n / 10). intros; lia.
Qed.

Lemma mask_length (v : list N) :
  (length (mask v) ≤ 6 + length v / 10)%nat.
Proof.
  unfold mask, str_of_N. rewrite !length_app, length_take. cbn [length].
  pose proof (digits_go_length (N.size_nat (N.of_nat (length v)))
                (N.of_nat (length v)) []) as H.
  cbn [length] in H.
  replace (N.to_nat (N.of_nat (length v) / 10)) with (length v / 10)%nat in H.
  - revert H. generalize (length v / 10)%nat. intros; lia.
  - change 10 with (N.of_nat 10). by rewrite <- Nat2N.inj_div, Nat2N.id.
Qed.

Lemma substring_length (needle hay : list N) :
  substring needle hay → (length needle ≤ length hay)%nat.
Proof. intros (pre & post & ->). rewrite !length_app. lia. Qed.

Lemma masked_settings_lookup (st : gmap (list N) (option (list N))) (k : list N) :
  masked_settings st !! k = masked_value k <$> st !! k.
Proof.
  unfold masked_settings. rewrite map_lookup_imap. by destruct (st !! k).
Qed.

(** A secret of seven characters or more is longer than what is shown for
    it, so what is shown cannot contain it. *)
Theorem masked_settings_hides_long_secret (st : gmap (list N) (option (list N)))
    (k v : list N) :
  k ∈ SENSITIVE_KEYS →
  st !! k = Some (Some v) →
  (7 ≤ length v)%nat →
  masked_settings st !! k = Some (Some (mask v)) ∧ ¬ substring v (mask v).
Proof.
  intros Hk Hv Hlen. split.
  - rewrite masked_settings_lookup, Hv. simpl. destruct v as [|c v]; [simpl in Hlen; lia|].
    by rewrite bool_decide_eq_true_2.
  - intros Hsub%substring_length. pose proof (mask_length v) as Hm.
    assert (length v / 10 * 10 ≤ length v)%nat by (apply Nat.Div0.div_mul_le || (rewrite Nat.mul_comm; apply Nat.Div0.mul_div_le)).
    lia.
Qed.

(** A secret of at most four characters is shown whole. *)
Theorem masked_settings_shows_secret_up_to_four (st : gmap (list N) (option (list N)))
    (k v : list N) :
  k ∈ SENSITIVE_KEYS →
  st !! k = Some (Some v) →
  v ≠ [] →
  (length v ≤ 4)%nat →
  masked_settings st !! k = Some (Some (mask v)) ∧ substring v (mask v).
Proof.
  intros Hk Hv Hne Hlen. split.
  - rewrite masked_settings_lookup, Hv. simpl. destruct v as [|c v]; [done|].
    by rewrite bool_decide_eq_true_2.
  - exists [], ([ELLIPSIS] ++ str_of_N (N.of_nat (length v))).
    unfold mask. by rewrite take_ge.
Qed.

Lemma masked_settings_hides_long_secret_witness :
  let secret := py "sk-abcdefghijklmno" in
  let st : gmap (list N) (option (list N)) := {[ py "deepl_api_key" := Some secret ]} in
  masked_settings st !! py "deepl_api_key" = Some (Some (py "sk-a" ++ [ELLIPSIS] ++ py "18"))
  ∧ ¬ substring secret (mask secret).
Proof.
  intros secret st.
  apply (masked_settings_hides_long_secret st (py "deepl_api_key") secret).
  - by apply (bool_decide_unpack _).
  - reflexivity.
  - vm_compute. lia.
Defined.

Lemma masked_settings_shows_secret_up_to_four_witness :
  let st : gmap (list N) (option (list N)) := {[ py "libre_api_key" := Some (py "key1") ]} in
  masked_settings st !! py "libre_api_key" = Some (Some (py "key1" ++ [ELLIPSIS] ++ py "4"))
  ∧ substring (py "key1") (mask (py "key1")).
Proof.
  intros st.
  apply (masked_settings_shows_secret_up_to_four st (py "libre_api_key") (py "key1")).
  - by apply (bool_decide_unpack _).
  - reflexivity.
  - discriminate.
  - vm_compute. lia.
Defined.

(** Absent and empty secrets, and fields that are no secrets, are shown as
    they are. *)
Theorem masked_settings_keeps_the_rest (st : gmap (list N) (option (list N))) (k : list N) :
  k ∉ SENSITIVE_KEYS ∨ st !! k = Some None ∨ st !! k = Some (Some []) ∨ st !! k = None →
  masked_settings st !! k = st !! k.
Proof.
  rewrite masked_settings_lookup.
  intros [Hk | [ -> | [ -> | -> ] ] ]; try done.
  destruct (st !! k) as [[[|c v]|]|]; try done. simpl.
  by rewrite bool_decide_eq_false_2.
Qed.

Lemma masked_settings_keeps_the_rest_witness :
  let st : gmap (list N) (option (list N)) :=
    {[ py "libre_api_key" := Some []; py "libre_url" := Some (py "http://lt") ]} in
  masked_settings st !! py "libre_api_key" = Some (Some []).
Proof.
  intros st. apply (masked_settings_keeps_the_rest st (py "libre_api_key")).
  right. right. left. reflexivity.
Defined.

Section merge.
Context {B : Backend}.

(** C1 (amended). The merge is key by key: a field that is present in the
    tenant's stored record replaces the process-wide default whatever its
    value is (empty and null included); a field that is absent from the
    record keeps the default; without a tenant (no id, or the id 0) the
    defaults are used unchanged. Reading the record creates it when the
    tenant had none. *)
Theorem provider_settings_merge (e : env) (guild_id : option Z) (s : state) :
  match given guild_id with
  | None => provider_settings e guild_id s = (Ret (default_settings e), s)
  | Some g =>
      let stored := default ∅ (settings (st_data s) !! _g g) in
      ∃ merged s',
        provider_settings e guild_id s = (Ret merged, s')
        ∧ (∀ k, merged !! k = match stored !! k with
                              | Some v => Some v
                              | None => default_settings e !! k
                              end)
        ∧ settings (st_data s') !! _g g = Some stored
        ∧ st_world s' = st_world s ∧ st_trace s' = st_trace s
  end.
Proof.
  unfold provider_settings. destruct (given guild_id) as [g|]; [|done].
  simpl. eexists _, _. split; [reflexivity|]. split_and!; try done.
  - intros k. unfold dict_update. rewrite lookup_union.
    destruct (default ∅ (settings (st_data s) !! _g g) !! k),
      (default_settings e !! k); done.
  - simpl. by rewrite lookup_insert_eq.
Qed.
End merge.

(** C1, as stated, fails: the tenant's value for [libre_url] is empty, the
    process-wide default is [http://lt], and the merged settings carry the
    empty value. *)
Lemma provider_settings_empty_value_wins :
  let d := (update_settings 7 [(py "libre_url", Some [])] _DEFAULT).2 in
  (get_settings 7 d).1 !! py "libre_url" = Some (Some [])
  ∧ default_settings env_with_libre !! py "libre_url" = Some (Some (py "http://lt"))
  ∧ ∃ merged s',
      provider_settings env_with_libre (Some 7%Z) (start (B := offline) d ())
      = (Ret merged, s')
      ∧ merged !! py "libre_url" = Some (Some []).
Proof.
  split_and!; [by vm_compute..|].
  eexists _, _. split; [reflexivity|]. by vm_compute.
Qed.

(** ** providers.py: the chain builder *)

Lemma priority_NoDup (selected : provider_kind) :
  NoDup (priority selected) ∧ length (priority selected) = 4%nat.
Proof. destruct selected; (split; [by apply (bool_decide_unpack _)|done]). Qed.

Section chain_builder.
Context {U : Unicode} {B : Backend}.

Lemma build_provider_chain_kinds (cfg : gmap (list N) (option (list N)))
    (selected : provider_kind) :
  selected_name cfg = kind_name selected →
  build_provider_chain cfg
  = Ret (match configured_kinds cfg selected with
         | [] => [variant cfg selected]
         | kinds => variant cfg <$> kinds
         end).
Proof.
  intros Hsel. unfold build_provider_chain, configured_kinds. rewrite Hsel.
  unfold all_map, variant.
  generalize (DeepLProvider (cfg_get cfg (py "deepl_api_key")))
    (LibreTranslateProvider (cfg_get cfg (py "libre_url"))
       (cfg_get cfg (py "libre_api_key")))
    (LingvaProvider (cfg_get cfg (py "lingva_url")))
    (SimplyTranslateProvider (cfg_get cfg (py "simply_url"))).
  clear Hsel.
  intros [nd [] td] [nl [] tl] [ng [] tg] [ns [] ts];
    destruct selected; vm_compute; reflexivity.
Qed.

Lemma priority_all (selected k : provider_kind) : k ∈ priority selected.
Proof. destruct selected, k; by apply (bool_decide_unpack _). Qed.

Lemma names_provider_selected (cfg : gmap (list N) (option (list N)))
    (selected : provider_kind) :
  names_provider cfg selected → selected_name cfg = kind_name selected.
Proof.
  unfold names_provider, selected_name, cfg_get.
  by destruct (cfg !! py "provider") as [[[|c p]|]|].
Qed.

(** C4. For settings whose [provider] field names a provider [selected] (it
    holds a spelling of one of the four names, in any letter case, or it is
    absent, null or empty, and [selected] is [deepl]), [build_provider_chain]
    returns, of the four variants built from the settings and taken in the
    order "[selected] first, then the others in canonical order, no variant
    twice", exactly those that are configured, in that order; when none is
    configured it returns the variant [selected] alone. *)
Theorem build_provider_chain_spec (cfg : gmap (list N) (option (list N)))
    (selected : provider_kind) :
  names_provider cfg selected →
  build_provider_chain cfg
  = Ret (match configured_kinds cfg selected with
         | [] => [variant cfg selected]
         | kinds => variant cfg <$> kinds
         end)
  ∧ configured_kinds cfg selected
    = filter (λ k, is_configured (variant cfg k) = true)
        (selected :: filter (λ k, k ≠ selected) canonical_order)
  ∧ NoDup (priority selected)
  ∧ (∀ k, k ∈ priority selected)
  ∧ (∀ k, name (variant cfg k) = kind_name k).
Proof.
  intros Hsel%names_provider_selected. split_and!.
  - by apply build_provider_chain_kinds.
  - done.
  - apply priority_NoDup.
  - apply priority_all.
  - by intros [].
Qed.
End chain_builder.

Lemma build_provider_chain_spec_witness :
  let cfg : gmap (list N) (option (list N)) :=
    list_to_map [ (py "provider", Some (py "Lingva"));
                  (py "deepl_api_key", Some (py "key"));
                  (py "libre_url", Some (py "http://lt/"));
                  (py "lingva_url", Some (py "http://lg")) ] in
  build_provider_chain (U := ascii_tables) (B := offline) cfg
  = Ret [ variant (U := ascii_tables) (B := offline) cfg Lingva;
          variant (U := ascii_tables) (B := offline) cfg Deepl;
          variant (U := ascii_tables) (B := offline) cfg Libre ].
Proof.
  intros cfg.
  exact (proj1 (build_provider_chain_spec (U := ascii_tables) (B := offline)
                  cfg Lingva eq_refl)).
Defined.

(** A provider name outside the four makes the builder raise [KeyError]. *)
Example build_provider_chain_unknown_name :
  build_provider_chain (U := ascii_tables) (B := offline)
    {[ py "provider" := Some (py "google") ]} = Raise KeyError.
Proof. vm_compute. done. Qed.

(** ** providers.py: the dispatcher *)

Section dispatcher.
Context {U : Unicode} {B : Backend}.

Lemma bind_run {X Y} (c : M X) (k : X → M Y) (s : state) :
  (c ≫= k) s = match c s with
               | (Ret a, s') => k a s'
               | (Raise e, s') => (Raise e, s')
               end.
Proof. reflexivity. Qed.

Lemma translate_via_chain_cons (prov : TranslationProvider)
    (chain : list TranslationProvider) (text target_lang : list N) (s : state) :
  translate_via_chain (prov :: chain) text target_lang s
  = match invoke prov text target_lang s with
    | (Ret None, s') => translate_via_chain chain text target_lang s'
    | (Ret (Some (detected, JStr t)), s') =>
        if nonempty (strip t) then (Ret (Some (name prov, detected, t)), s')
        else translate_via_chain chain text target_lang s'
    | (Ret (Some _), s') => (Raise AttributeError, s')
    | (Raise e, s') => (Raise e, s')
    end.
Proof.
  simpl. rewrite bind_run.
  destruct (invoke prov text target_lang s) as [[[[d []]|]|e] s']; try done.
  by destruct (nonempty _).
Qed.

Lemma declines_skip (text target_lang : list N) (pre rest : list TranslationProvider)
    (s s1 : state) :
  declines text target_lang pre s s1 →
  translate_via_chain (pre ++ rest) text target_lang s
  = translate_via_chain rest text target_lang s1.
Proof.
  induction 1 as [|prov chain s s1 s2 res Hcall Hres _ IH]; [done|].
  rewrite <- app_comm_cons, translate_via_chain_cons, Hcall.
  destruct Hres as [->|(d & t & -> & Ht)]; [done|]. by rewrite Ht.
Qed.

(** C3. [translate_via_chain] calls the providers one after the other in
    chain order, each from the state its predecessor left. If the
    providers before [prov] all return nothing or a translation that is
    empty once trimmed, and [prov] returns a translation that is not, the
    dispatcher returns that translation with [prov]'s name and its
    detected language, in the state [prov] left: no later provider is
    called. If every provider of the chain returns nothing or an empty
    translation, the dispatcher returns nothing. *)
Theorem translate_via_chain_first_success (chain : list TranslationProvider)
    (text target_lang : list N) (s : state) :
  (∀ pre prov post detected t s1 s2,
      chain = pre ++ prov :: post →
      declines text target_lang pre s s1 →
      invoke prov text target_lang s1 = (Ret (Some (detected, JStr t)), s2) →
      strip t ≠ [] →
      translate_via_chain chain text target_lang s
      = (Ret (Some (name prov, detected, t)), s2))
  ∧ (∀ s', declines text target_lang chain s s' →
           translate_via_chain chain text target_lang s = (Ret None, s')).
Proof.
  split.
  - intros pre prov post detected t s1 s2 -> Hpre Hcall Ht.
    rewrite (declines_skip _ _ _ _ _ _ Hpre), translate_via_chain_cons, Hcall.
    destruct (strip t); done.
  - intros s' Hall. rewrite <- (app_nil_r chain).
    by rewrite (declines_skip _ _ _ _ _ _ Hall).
Qed.
End dispatcher.

(** The spec's dispatch scenario: a provider that always fails, then one that
    answers [("FR", "Bonjour traduit")]. *)
Lemma translate_via_chain_first_success_witness :
  let x := failing_provider (B := offline) (py "x") in
  let y := answering_provider (B := offline) (py "y") (py "FR") (py "Bonjour traduit") in
  let s := start (B := offline) _DEFAULT () in
  translate_via_chain [x; y] (py "Bonjour") (py "EN-US") s
  = (Ret (Some (py "y", py "FR", py "Bonjour traduit")),
     @Build_state offline _DEFAULT ()
       [EvTranslate (py "x") true; EvTranslate (py "y") true]).
Proof.
  intros x y s.
  eapply (proj1 (translate_via_chain_first_success (B := offline)
                  [x; y] (py "Bonjour") (py "EN-US") s) [x] y []).
  - reflexivity.
  - eapply declines_cons; [reflexivity|by left|apply declines_nil].
  - reflexivity.
  - vm_compute. discriminate.
Defined.

(** ** app.py: the text classifier *)

Lemma filter_none {A} (P : A → Prop) `{∀ x, Decision (P x)} (l : list A) :
  Forall (λ x, ¬ P x) l → filter P l = [].
Proof.
  induction 1 as [|x l Hx _ IH]; [done|].
  rewrite filter_cons. by destruct (decide (P x)).
Qed.

Lemma nonempty_true (s : list N) : s ≠ [] → nonempty s = true.
Proof. by destruct s. Qed.

Section classifier_props.
Context {U : Unicode}.

Lemma looks_numeric_like_no_letter (t : list N) :
  Forall (λ c, isalpha c = false) t → looks_numeric_like t = true.
Proof.
  intros Ht. unfold looks_numeric_like. destruct (nonempty t); [simpl|done].
  rewrite filter_none; [done|].
  apply Forall_strip. eapply Forall_impl; [exact Ht|].
  intros c Hc. by rewrite Hc.
Qed.

(** C6 (amended). A text none of whose characters is alphabetic (digits,
    punctuation and whitespace are not), that has a character other than
    whitespace and is no longer than [MAX_INPUT_CHARS], is classified
    [numeric_like] whenever the numeric-like filter is enabled, in forced
    and unforced mode alike. *)
Theorem skip_reason_numeric_like (e : env) (text : list N) (force : bool) :
  IGNORE_NUMERIC_LIKE e = true →
  Forall (λ c, isalpha c = false) text →
  strip text ≠ [] →
  (Z.of_nat (length text) ≤ MAX_INPUT_CHARS e)%Z →
  skip_reason e text force = Some (py "numeric_like").
Proof.
  intros Hon Htext Hblank Hlen. unfold skip_reason.
  rewrite (nonempty_true _ Hblank). simpl.
  rewrite bool_decide_eq_false_2 by lia.
  by rewrite Hon, looks_numeric_like_no_letter.
Qed.
End classifier_props.

Lemma skip_reason_numeric_like_witness :
  skip_reason (U := ascii_tables) default_env (py "12:30 (5/7) - 100%") false
  = Some (py "numeric_like").
Proof.
  apply (skip_reason_numeric_like (U := ascii_tables)).
  - reflexivity.
  - by apply (bool_decide_unpack _).
  - vm_compute. discriminate.
  - vm_compute. discriminate.
Defined.

(** C6, as stated, fails: five spaces are a text of whitespace only and of
    length 5, and a run of 1801 digits is a text of digits only, yet with
    the numeric-like filter enabled the first is classified [blank] and the
    second [too_long], whatever the mode and the Unicode tables. *)
Lemma skip_reason_blank_and_too_long_come_first :
  length (py "     ") = 5%nat
  ∧ Forall (λ c, isspace c = true) (py "     ")
  ∧ Forall (λ c, ascii_isdecimal c = true) (replicate 1801 49)
  ∧ IGNORE_NUMERIC_LIKE default_env = true
  ∧ (∀ (U : Unicode) force,
        skip_reason default_env (py "     ") force = Some (py "blank"))
  ∧ (∀ (U : Unicode) force,
        skip_reason default_env (replicate 1801 49) force = Some (py "too_long:1801")).
Proof.
  split_and!;
    [done | by apply (bool_decide_unpack _) | by apply (bool_decide_unpack _)
    | done | by intros; vm_compute | by intros; vm_compute].
Qed.

(** ** providers.py: exceptions of [translate] *)

(** C8: [LingvaProvider.translate] percent-encodes the text before it enters
    its [try] block; on a text that holds a lone surrogate the encoding
    raises, and the exception reaches the caller. Nothing is sent. *)
Theorem lingva_translate_raises_on_surrogate {U : Unicode} {B : Backend} (s : state) :
  translate (LingvaProvider (Some (py "http://lg"))) [55296] (py "EN-US") s
  = (Raise UnicodeEncodeError, s).
Proof. reflexivity. Qed.

(** ** providers.py: what a computation raises *)

Section raises_rules.
Context {U : Unicode} {B : Backend}.

Lemma send_run (r : request) (s : state) :
  send r s
  = match http_send r (st_world s) with
    | (NoResponse, w) =>
        (Raise BackendError,
         {| st_data := st_data s; st_world := w; st_trace := st_trace s ++ [EvHttp r] |})
    | (Cancelled, w) =>
        (Raise CancelledError,
         {| st_data := st_data s; st_world := w; st_trace := st_trace s ++ [EvHttp r] |})
    | (Response status_code body, w) =>
        (Ret (status_code, body),
         {| st_data := st_data s; st_world := w; st_trace := st_trace s ++ [EvHttp r] |})
    end.
Proof.
  unfold send. rewrite bind_run. simpl. rewrite bind_run. unfold on_world. simpl.
  by destruct (http_send r (st_world s)) as [[| |c b] w].
Qed.

Lemma raises_ret {A} (P : exn → Prop) (a : A) : raises P (ret a).
Proof. by intros s e s' [=]. Qed.

Lemma raises_lift {A} (P : exn → Prop) (o : outcome A) :
  (∀ e, o = Raise e → P e) → raises P (lift o).
Proof. intros Ho s e s' [= -> _]. by apply Ho. Qed.

Lemma raises_log (P : exn → Prop) (ev : event) : raises P (log ev).
Proof. by intros s e s' [=]. Qed.

Lemma raises_bind {X Y} (P : exn → Prop) (c : M X) (k : X → M Y) :
  raises P c → (∀ a, raises P (k a)) → raises P (c ≫= k).
Proof.
  intros Hc Hk s e s'. rewrite bind_run. destruct (c s) as [[a|e0] s1] eqn:E.
  - apply Hk.
  - intros [= <- <-]. by eapply Hc.
Qed.

(** What follows a call to the outside world is looked at for the answers
    the world can give. *)
Lemma raises_on_world_bind {X Y} (P : exn → Prop) (f : world → X * world) (k : X → M Y) :
  (∀ w, raises P (k (f w).1)) → raises P (on_world f ≫= k).
Proof.
  intros Hk s e s'. rewrite bind_run. unfold on_world.
  specialize (Hk (st_world s)). destruct (f (st_world s)) as [a w]. apply Hk.
Qed.

Lemma raises_try_except {A} (P : exn → Prop) (c h : M A) :
  raises (λ e, is_Exception e = true ∨ P e) c → raises P h → raises P (try_except c h).
Proof.
  intros Hc Hh s e s'. unfold try_except. destruct (c s) as [[a|e0] s1] eqn:E; [done|].
  destruct (is_Exception e0) eqn:He0; [apply Hh|].
  intros [= <- <-]. destruct (Hc _ _ _ E) as [He|He]; [congruence|done].
Qed.

Lemma raises_ensure {A} (P : exn → Prop) (c : M A) (after : M unit) :
  raises P c → raises P after → raises P (ensure c after).
Proof.
  intros Hc Ha s e s'. unfold ensure. destruct (c s) as [res s1] eqn:E.
  destruct (after s1) as [[[]|e1] s2] eqn:E1.
  - intros [= -> <-]. by eapply Hc.
  - intros [= <- <-]. by eapply Ha.
Qed.

Lemma raises_weaken {A} (P Q : exn → Prop) (c : M A) :
  (∀ e, P e → Q e) → raises P c → raises Q c.
Proof. intros HPQ Hc s e s' E. by eapply HPQ, Hc. Qed.

Lemma raises_nothing_returns {A} (c : M A) (s : state) :
  raises (λ _, False) c → ∃ res s', c s = (Ret res, s').
Proof.
  intros Hc. destruct (c s) as [[res|e] s'] eqn:E; [by eexists _, _|].
  destruct (Hc _ _ _ E).
Qed.

Lemma json_get_raises (v : json) (k : list N) (dflt : json) (e : exn) :
  json_get v k dflt = Raise e → is_Exception e = true.
Proof. destruct v; try done; by intros [= <-]. Qed.

Lemma json_upper_raises (v : json) (e : exn) :
  json_upper v = Raise e → is_Exception e = true.
Proof. destruct v; try done; by intros [= <-]. Qed.

Lemma response_json_raises (r : Z * option json) :
  raises (λ e, is_Exception e = true) (response_json r).
Proof. unfold response_json. destruct (r.2); [apply raises_ret|by intros s e s' [= <- _]]. Qed.

Lemma send_raises (r : request) :
  never_cancelled → raises (λ e, is_Exception e = true) (send r).
Proof.
  intros [Hsend _] s e s'. rewrite send_run. specialize (Hsend r (st_world s)).
  destruct (http_send r (st_world s)) as [[| |c b] w]; simpl in *; [|done..].
  by intros [= <- _].
Qed.

Lemma with_client_raises {A} (P : exn → Prop) (timeout : Z) (body : M A) :
  clients_work → raises P body → raises P (with_client timeout body).
Proof.
  intros [Hopen Hclose] Hbody. unfold with_client. apply raises_on_world_bind. intros w.
  rewrite Hopen. apply raises_ensure; [done|].
  apply raises_on_world_bind. intros w'. rewrite Hclose. apply raises_ret.
Qed.

Lemma with_client_returns {A} (timeout : Z) (body : M A) (a : A) (s : state) :
  clients_work → (∀ s0, ∃ s1, body s0 = (Ret a, s1)) →
  ∃ s', with_client timeout body s = (Ret a, s').
Proof.
  intros [Hopen Hclose] Hbody. unfold with_client. rewrite bind_run. unfold on_world.
  specialize (Hopen timeout (st_world s)).
  destruct (httpx_AsyncClient timeout (st_world s)) as [opened w]. simpl in Hopen.
  subst opened. unfold ensure.
  match goal with |- context [body ?s0] => destruct (Hbody s0) as [s1 ->] end.
  rewrite bind_run. unfold on_world. specialize (Hclose (st_world s1)).
  destruct (httpx_aclose (st_world s1)) as [closed w']. simpl in Hclose. subst closed.
  by eexists.
Qed.
End raises_rules.

Ltac raises_step :=
  lazymatch goal with
  | |- raises _ (ret _) => apply raises_ret
  | |- raises _ (send _) => by apply send_raises
  | |- raises _ (response_json _) => apply response_json_raises
  | |- raises _ (lift (json_get _ _ _)) => apply raises_lift, json_get_raises
  | |- raises _ (lift (json_upper _)) => apply raises_lift, json_upper_raises
  | |- raises _ (lift (Raise _)) => apply raises_lift; by intros ? [= <-]
  | |- raises _ (log _) => apply raises_log
  | |- raises _ (_ ≫= _) => apply raises_bind; [|intros ?]
  | |- raises _ (if ?b then _ else _) => destruct b
  | |- raises _ (match ?x with _ => _ end) => destruct x
  end.

(** ** providers.py: which [translate] returns *)

Section returns.
Context {U : Unicode} {B : Backend}.

(** A [try] block with its handler raises nothing when the block raises
    exceptions that derive from [Exception] only. *)
Lemma guarded_raises_nothing {A} (c : M A) (a : A) :
  raises (λ e, is_Exception e = true) c → raises (λ _, False) (try_except c (ret a)).
Proof.
  intros Hc. apply raises_try_except; [|apply raises_ret].
  eapply raises_weaken; [|exact Hc]. by left.
Qed.

Lemma quote_returns (text : list N) :
  (∃ bytes, utf8_encode text = Ret bytes) → ∃ query, quote text = Ret query.
Proof. intros [bytes Hb]. unfold quote. rewrite Hb. by eexists. Qed.

Lemma translate_raises_nothing (cfg : gmap (list N) (option (list N)))
    (k : provider_kind) (text target_lang : list N) :
  never_cancelled →
  (k ≠ Deepl → clients_work) →
  (k = Lingva → ∃ bytes, utf8_encode text = Ret bytes) →
  raises (λ _, False) (translate (variant cfg k) text target_lang).
Proof.
  intros Hnc Hclients Hlingva. destruct k; simpl.
  - destruct (negb _); [apply raises_ret|]. apply guarded_raises_nothing.
    apply raises_bind; [apply raises_log|]. intros _.
    apply raises_on_world_bind. intros w. destruct Hnc as [_ Hdeepl].
    match goal with
    | |- context [deepl_translateText ?a ?b ?c w] =>
        specialize (Hdeepl a b c w); destruct (deepl_translateText a b c w) as [[| |d t] w']
    end; simpl in *; [|done|]; repeat raises_step.
  - destruct (negb _); [apply raises_ret|]. apply with_client_raises; [by apply Hclients|].
    apply raises_bind.
    + eapply raises_weaken; [|apply guarded_raises_nothing; repeat raises_step]. done.
    + intros detected_lang. apply guarded_raises_nothing. repeat raises_step.
  - destruct (negb _); [apply raises_ret|].
    destruct (quote_returns text (Hlingva eq_refl)) as [query Hq]. rewrite Hq.
    apply raises_bind; [by apply raises_lift|]. intros q.
    apply with_client_raises; [by apply Hclients|].
    apply guarded_raises_nothing. repeat raises_step.
  - destruct (negb _); [apply raises_ret|]. apply with_client_raises; [by apply Hclients|].
    apply guarded_raises_nothing. repeat raises_step.
Qed.

(** When every HTTP client can be built and closed and the task is not
    cancelled while it waits for a back-end, [translate] returns: the
    LibreTranslate and SimplyTranslate variants on every text, the Lingva
    variant on every text that UTF-8 can encode, and the DeepL variant, which
    builds no HTTP client, whether or not such clients can be built. *)
Theorem translate_returns (cfg : gmap (list N) (option (list N))) (k : provider_kind)
    (text target_lang : list N) (s : state) :
  never_cancelled →
  (k ≠ Deepl → clients_work) →
  (k = Lingva → ∃ bytes, utf8_encode text = Ret bytes) →
  ∃ res s', translate (variant cfg k) text target_lang s = (Ret res, s').
Proof.
  intros Hnc Hclients Hlingva. by apply raises_nothing_returns, translate_raises_nothing.
Qed.
End returns.

Lemma quiet_never_cancelled : never_cancelled (B := libre_without_detect).
Proof. split; [|done]. intros r w. simpl. by case_bool_decide. Qed.

Lemma quiet_clients_work : clients_work (B := libre_without_detect).
Proof. by split. Qed.

Lemma translate_returns_witness :
  ∃ res s',
    translate (variant (U := ascii_tables) (B := libre_without_detect)
                 {[ py "lingva_url" := Some (py "http://lt") ]} Lingva)
      (py "hola") (py "EN-US") (start (B := libre_without_detect) _DEFAULT ())
    = (Ret res, s').
Proof.
  apply (translate_returns (U := ascii_tables) (B := libre_without_detect)).
  - exact quiet_never_cancelled.
  - intros _. exact quiet_clients_work.
  - intros _. by eexists.
Defined.

(** The HTTP client is built outside every [try] block: when it cannot be
    built, [translate] of the LibreTranslate variant raises what the
    construction raised, and so does a dispatch over a chain that holds the
    variant, although the back-end would have answered. *)
Example translate_raises_without_client :
  let p := variant (U := ascii_tables) (B := no_client)
             {[ py "libre_url" := Some (py "http://lt") ]} Libre in
  let s := start (B := no_client) _DEFAULT () in
  translate p (py "bonjour") (py "EN-US") s = (Raise BackendError, s)
  ∧ (translate_via_chain [p] (py "bonjour") (py "EN-US") s).1 = Raise BackendError.
Proof. by vm_compute. Qed.

(** A payload whose translation is not a string passes through [translate]
    and makes the dispatcher raise. *)
Example translate_via_chain_raises_on_null_translation :
  let p := variant (U := ascii_tables) (B := libre_null_translation)
             {[ py "libre_url" := Some (py "http://lt") ]} Libre in
  let s := start (B := libre_null_translation) _DEFAULT () in
  (translate p (py "hola") (py "EN-US") s).1 = Ret (Some ([], JNull))
  ∧ (translate_via_chain [p] (py "hola") (py "EN-US") s).1 = Raise AttributeError.
Proof. by vm_compute. Qed.

(** ** The trace of a dispatch *)

Section trace.
Context {U : Unicode} {B : Backend}.

Lemma appends_ret {A} (P : event → Prop) (a : A) : appends P (ret a).
Proof. intros s. exists []. by rewrite app_nil_r. Qed.

Lemma appends_lift {A} (P : event → Prop) (o : outcome A) : appends P (lift o).
Proof. intros s. exists []. by rewrite app_nil_r. Qed.

Lemma appends_log (P : event → Prop) (e : event) : P e → appends P (log e).
Proof. intros He s. exists [e]. split; [done|]. by constructor. Qed.

Lemma appends_on_world {A} (P : event → Prop) (f : world → A * world) :
  appends P (on_world f).
Proof.
  intros s. exists []. unfold on_world. destruct (f (st_world s)). simpl.
  by rewrite app_nil_r.
Qed.

Lemma appends_bind {X Y} (P : event → Prop) (c : M X) (k : X → M Y) :
  appends P c → (∀ a, appends P (k a)) → appends P (c ≫= k).
Proof.
  intros Hc Hk s. rewrite bind_run.
  destruct (Hc s) as (evs & Htr & Hevs). destruct (c s) as [[a|e] s1]; simpl in *.
  - destruct (Hk a s1) as (evs' & Htr' & Hevs').
    exists (evs ++ evs'). rewrite Htr', Htr, app_assoc. split; [done|].
    by apply Forall_app.
  - by exists evs.
Qed.

Lemma appends_try_except {A} (P : event → Prop) (c h : M A) :
  appends P c → appends P h → appends P (try_except c h).
Proof.
  intros Hc Hh s. unfold try_except.
  destruct (Hc s) as (evs & Htr & Hevs). destruct (c s) as [[a|e] s1]; simpl in *.
  - by exists evs.
  - destruct (is_Exception e); [|by exists evs].
    destruct (Hh s1) as (evs' & Htr' & Hevs').
    exists (evs ++ evs'). rewrite Htr', Htr, app_assoc. split; [done|].
    by apply Forall_app.
Qed.

Lemma appends_ensure {A} (P : event → Prop) (c : M A) (after : M unit) :
  appends P c → appends P after → appends P (ensure c after).
Proof.
  intros Hc Ha s. unfold ensure.
  destruct (Hc s) as (evs & Htr & Hevs). destruct (c s) as [res s1]; simpl in *.
  destruct (Ha s1) as (evs' & Htr' & Hevs').
  exists (evs ++ evs'). rewrite app_assoc, <- Htr.
  split; [by destruct (after s1) as [[[]|e] s2]|by apply Forall_app].
Qed.

Lemma appends_weaken {A} (P Q : event → Prop) (c : M A) :
  (∀ e, P e → Q e) → appends P c → appends Q c.
Proof.
  intros HPQ Hc s. destruct (Hc s) as (evs & Htr & Hevs).
  exists evs. split; [done|]. by eapply Forall_impl.
Qed.

Ltac appends_step :=
  lazymatch goal with
  | |- appends _ (ret _) => apply appends_ret
  | |- appends _ (lift _) => apply appends_lift
  | |- appends _ (log _) => apply appends_log; exact I
  | |- appends _ (on_world _) => apply appends_on_world
  | |- appends _ (try_except _ _) => apply appends_try_except
  | |- appends _ (ensure _ _) => apply appends_ensure
  | |- appends _ (with_client _ _) => unfold with_client
  | |- appends _ (_ ≫= _) => apply appends_bind; [|intros ?]
  | |- appends _ (if ?b then _ else _) => destruct b
  | |- appends _ (match ?x with _ => _ end) => destruct x
  end.

Lemma send_outbound (r : request) : appends outbound (send r).
Proof. unfold send. repeat appends_step. Qed.

Lemma response_json_outbound (r : Z * option json) : appends outbound (response_json r).
Proof. unfold response_json. repeat appends_step. Qed.

Lemma variant_outbound (cfg : gmap (list N) (option (list N))) (k : provider_kind)
    (text target_lang : list N) :
  appends outbound (translate (variant cfg k) text target_lang).
Proof.
  destruct k; simpl.
  all: repeat first [ apply send_outbound | apply response_json_outbound | appends_step ].
Qed.

Lemma translate_via_chain_trace (chain : list TranslationProvider)
    (text target_lang : list N) :
  (∀ prov, prov ∈ chain → appends outbound (translate prov text target_lang)) →
  appends (λ e, outbound e
                ∨ ∃ prov, prov ∈ chain ∧ e = EvTranslate (name prov) (is_configured prov))
    (translate_via_chain chain text target_lang).
Proof.
  induction chain as [|prov chain IH]; intros Hq; simpl; [apply appends_ret|].
  assert (Hrest : appends (λ e, outbound e
             ∨ ∃ p, p ∈ prov :: chain ∧ e = EvTranslate (name p) (is_configured p))
            (translate_via_chain chain text target_lang)).
  { eapply appends_weaken; [|apply IH; intros; apply Hq; set_solver].
    intros e [He|(p & Hp & ->)]; [by left|right]. exists p. set_solver. }
  unfold invoke. repeat appends_step; try done.
  - apply appends_log. right. exists prov. set_solver.
  - eapply appends_weaken; [|apply Hq; set_solver]. by left.
Qed.

Lemma unconfigured_returns_nothing (cfg : gmap (list N) (option (list N)))
    (k : provider_kind) (text target_lang : list N) :
  is_configured (variant cfg k) = false →
  translate (variant cfg k) text target_lang = ret None.
Proof. destruct k; simpl; by intros ->. Qed.

(** C5 (amended). During a dispatch over the chain built from settings whose
    provider name is known, every variant whose [translate] is entered is
    configured, with one exception: when no variant at all is configured,
    the selected variant is entered, once and alone; it then returns nothing
    and no call leaves the process. *)
Theorem dispatch_calls_configured_or_lone_selected
    (cfg : gmap (list N) (option (list N))) (selected : provider_kind)
    (text target_lang : list N) (s : state) :
  selected_name cfg = kind_name selected →
  ∃ chain evs,
    build_provider_chain cfg = Ret chain
    ∧ st_trace (translate_via_chain chain text target_lang s).2 = st_trace s ++ evs
    ∧ match configured_kinds cfg selected with
      | [] =>
          (∀ k, is_configured (variant cfg k) = false)
          ∧ evs = [EvTranslate (kind_name selected) false]
          ∧ (translate_via_chain chain text target_lang s).1 = Ret None
          ∧ st_world (translate_via_chain chain text target_lang s).2 = st_world s
      | _ => ∀ n c, EvTranslate n c ∈ evs → c = true
      end.
Proof.
  intros Hsel. rewrite (build_provider_chain_kinds _ _ Hsel).
  destruct (configured_kinds cfg selected) as [|k ks] eqn:Hkinds.
  - assert (Hnone : ∀ k, is_configured (variant cfg k) = false).
    { intros k. destruct (is_configured (variant cfg k)) eqn:Hk; [|done].
      assert (k ∈ configured_kinds cfg selected) as Hin
        by (apply list_elem_of_filter; split; [done|apply priority_all]).
      rewrite Hkinds in Hin. by apply not_elem_of_nil in Hin. }
    eexists _, [EvTranslate (kind_name selected) false]. split; [done|].
    rewrite translate_via_chain_cons. unfold invoke. rewrite bind_run. simpl.
    rewrite (unconfigured_returns_nothing _ _ _ _ (Hnone selected)). simpl.
    rewrite (Hnone selected). by destruct selected.
  - set (chain := variant cfg <$> k :: ks).
    assert (Hconf : ∀ prov, prov ∈ chain → is_configured prov = true).
    { intros prov (k' & -> & Hk')%list_elem_of_fmap.
      rewrite <- Hkinds in Hk'. by apply list_elem_of_filter in Hk' as [? _]. }
    destruct (translate_via_chain_trace chain text target_lang) with (s := s)
      as (evs & Htr & Hevs).
    { intros prov (k' & -> & _)%list_elem_of_fmap. apply variant_outbound. }
    exists chain, evs. split_and!; [done..|].
    intros n c Hin. rewrite Forall_forall in Hevs.
    destruct (Hevs _ Hin) as [[]|(prov & Hprov & [= -> ->])]. by apply Hconf.
Qed.
End trace.

(** C5, as stated, fails: with no environment variable set and no tenant,
    the merged settings configure no variant, the chain is the unconfigured
    DeepL variant, and the dispatcher enters its [translate]. *)
Lemma unconfigured_selected_is_invoked :
  let cfg := default_settings default_env in
  let deepl := variant (U := ascii_tables) (B := offline) cfg Deepl in
  is_configured deepl = false
  ∧ build_provider_chain (U := ascii_tables) (B := offline) cfg = Ret [deepl]
  ∧ ∃ r s',
      translate_via_chain [deepl] (py "hola") (py "EN-US")
        (start (B := offline) _DEFAULT ()) = (r, s')
      ∧ EvTranslate (py "deepl") false ∈ st_trace s'.
Proof.
  intros cfg deepl. split_and!; [done|by vm_compute|].
  eexists _, _. split; [reflexivity|]. vm_compute. set_solver.
Qed.

Lemma dispatch_calls_configured_or_lone_selected_witness :
  ∃ chain evs,
    build_provider_chain (U := ascii_tables) (B := offline)
      {[ py "libre_url" := Some (py "http://lt") ]} = Ret chain
    ∧ st_trace (translate_via_chain chain (py "hola") (py "EN-US")
                  (start (B := offline) _DEFAULT ())).2 = [] ++ evs
    ∧ ∀ n c, EvTranslate n c ∈ evs → c = true.
Proof.
  exact (dispatch_calls_configured_or_lone_selected (U := ascii_tables) (B := offline)
           {[ py "libre_url" := Some (py "http://lt") ]} Deepl (py "hola") (py "EN-US")
           (start (B := offline) _DEFAULT ()) eq_refl).
Defined.

(** ** app.py: the orchestrator *)

Section orchestrator.
Context {U : Unicode} {B : Backend}.

Lemma state_eta (s : state) :
  {| st_data := st_data s; st_world := st_world s; st_trace := st_trace s |} = s.
Proof. by destruct s. Qed.

Lemma guild_blacklist_reads (e : env) (guild_id : option Z) (s : state) :
  ∃ bl, guild_blacklist e guild_id s = (Ret bl, s).
Proof.
  unfold guild_blacklist. destruct (given guild_id) as [g|].
  - rewrite bind_run. unfold on_data. simpl. rewrite state_eta. by eexists.
  - by eexists.
Qed.

(** C10. When the text is admitted and the dispatch over the chain built
    from the merged settings succeeds with an empty detected language, the
    outcome of [translate_pipeline] depends on the no-change test alone:
    whatever the blacklists hold and whether or not they are applied, the
    blacklist test and the English test let the result through; and when the
    result is returned its text is the translation itself, with no header
    before it, whether or not [SHOW_SOURCE_LANG] is set. *)
Theorem translate_pipeline_empty_detected (e : env) (guild_id : option Z)
    (text : list N) (force apply_blacklist : bool) (s s1 s2 : state)
    (settings : gmap (list N) (option (list N))) (chain : list TranslationProvider)
    (provider_name translated : list N) :
  skip_reason e text force = None →
  provider_settings e guild_id s = (Ret settings, s1) →
  build_provider_chain settings = Ret chain →
  translate_via_chain chain text (py "EN-US") s1
  = (Ret (Some (provider_name, [], translated)), s2) →
  translate_pipeline e guild_id text force apply_blacklist s
  = (Ret (if bool_decide (normalize translated = normalize text) then None
          else Some (provider_name, [], translated)), s2).
Proof.
  intros Hskip Hset Hchain Hres. unfold translate_pipeline.
  rewrite Hskip, bind_run, Hset, bind_run, Hchain. simpl.
  rewrite bind_run, Hres. unfold post_filter. rewrite bind_run.
  destruct apply_blacklist.
  - rewrite bind_run. destruct (guild_blacklist_reads e guild_id s2) as [bl ->].
    simpl. rewrite andb_false_r. by case_bool_decide.
  - simpl. rewrite andb_false_r. by case_bool_decide.
Qed.
End orchestrator.

Lemma translate_pipeline_empty_detected_witness :
  let text := py "bonjour tout le monde" in
  let s := start (B := libre_without_detect) _DEFAULT () in
  let chain := [variant (U := ascii_tables) (default_settings env_with_libre) Libre] in
  py "FR" ∈ ENV_BLACKLIST env_with_libre
  ∧ SHOW_SOURCE_LANG env_with_libre = true
  ∧ translate_pipeline (U := ascii_tables) env_with_libre None text false true s
    = (Ret (Some (py "libre", [], py "hello everyone")),
       (translate_via_chain chain text (py "EN-US") s).2).
Proof.
  intros text s chain. split_and!; [set_solver|done|].
  exact (translate_pipeline_empty_detected (U := ascii_tables) env_with_libre None
           text false true s s (translate_via_chain chain text (py "EN-US") s).2
           (default_settings env_with_libre) chain (py "libre") (py "hello everyone")
           eq_refl eq_refl eq_refl eq_refl).
Defined.

(** The spec's orchestrator scenario: French is detected and the reply names
    it; with [FR] on the blacklist nothing is returned. *)
Example translate_pipeline_french :
  let text := py "bonjour tout le monde" in
  let s := start (B := libre_french) _DEFAULT () in
  (translate_pipeline (U := ascii_tables) (libre_env ∅) None text false true s).1
  = Ret (Some (py "libre", py "FR",
               py "Translated from FR via libre:" ++ [10] ++ py "hello everyone"))
  ∧ (translate_pipeline (U := ascii_tables) env_with_libre None text false true s).1
    = Ret None.
Proof. by vm_compute. Qed.

(** * More properties *)

(** ** Decimal rendering *)

Lemma size_nat_bound (n : N) : n < 10 ^ N.of_nat (N.size_nat n).
Proof.
  destruct n as [|p]; [done|]. simpl.
  induction p as [p IH|p IH|]; cbn [Pos.size_nat]; rewrite ?Nat2N.inj_succ, ?N.pow_succ_r';
    lia.
Qed.

Lemma digits_go_val (fuel : nat) (n : N) (acc : list N) :
  n < 10 ^ N.of_nat (S fuel) →
  foldl (λ a d, 10 * a + (d - 48)) 0 (digits_go fuel n acc)
  = foldl (λ a d, 10 * a + (d - 48)) n acc.
Proof.
  revert n acc. induction fuel as [|fuel IH]; intros n acc Hn; cbn [digits_go].
  - cbn [foldl]. f_equal. change (10 ^ N.of_nat 1) with 10 in Hn.
    rewrite N.mod_small by done. lia.
  - destruct (N.ltb_spec n 10) as [Hlt|Hge].
    + cbn [foldl]. f_equal. rewrite N.mod_small by done. lia.
    + rewrite IH.
      * cbn [foldl]. f_equal. pose proof (N.Div0.div_mod n 10) as E.
        revert E. generalize (n / 10) (n `mod` 10). intros; lia.
      * rewrite Nat2N.inj_succ, N.pow_succ_r' in Hn.
        apply N.Div0.div_lt_upper_bound. done.
Qed.

Lemma str_of_N_val (n : N) : digits_val (str_of_N n) = n.
Proof.
  unfold digits_val, str_of_N. rewrite digits_go_val; [done|].
  rewrite Nat2N.inj_succ, N.pow_succ_r'. pose proof (size_nat_bound n). lia.
Qed.

Lemma digits_go_digits (fuel : nat) (n : N) (acc : list N) :
  Forall (λ d, in_range 48 57 d = true) acc →
  Forall (λ d, in_range 48 57 d = true) (digits_go fuel n acc).
Proof.
  revert n acc. induction fuel as [|fuel IH]; intros n acc Hacc; cbn [digits_go].
  all: assert (in_range 48 57 (48 + n `mod` 10) = true) as Hd
    by (unfold in_range; assert (n `mod` 10 < 10) as Hm by (by apply N.mod_upper_bound);
        revert Hm; generalize (n `mod` 10); intros;
        apply andb_true_intro; split; apply N.leb_le; lia).
  - by constructor.
  - destruct (n <? 10); [by constructor|]. apply IH. by constructor.
Qed.

Lemma digits_go_nonempty (fuel : nat) (n : N) (acc : list N) : digits_go fuel n acc ≠ [].
Proof.
  revert n acc. induction fuel as [|fuel IH]; intros n acc; cbn [digits_go]; [done|].
  destruct (n <? 10); [done|apply IH].
Qed.

#[global] Instance str_of_N_inj : Inj (=) (=) str_of_N.
Proof. intros n m E. by rewrite <- (str_of_N_val n), <- (str_of_N_val m), E. Qed.

#[global] Instance str_of_Z_inj : Inj (=) (=) str_of_Z.
Proof.
  assert (Hneg : ∀ p n, 45 :: str_of_N (Npos p) ≠ str_of_N n).
  { intros p n E. pose proof (digits_go_digits (N.size_nat n) n [] (Forall_nil_2 _)) as Hd.
    fold (str_of_N n) in Hd. rewrite <- E in Hd. by inversion Hd. }
  intros x y E. destruct x as [|p|p], y as [|q|q]; unfold str_of_Z in E; simpl Z.to_N in E;
    first [ done
          | by apply Hneg in E
          | symmetry in E; by apply Hneg in E
          | apply (inj str_of_N) in E; by simplify_eq
          | injection E as E; apply (inj str_of_N) in E; by simplify_eq ].
Qed.

(** ** config_store.py: reading back what was written *)

Lemma elem_of_append_if_absent (x y : list N) (arr : list (list N)) :
  y ∈ append_if_absent x arr ↔ y = x ∨ y ∈ arr.
Proof.
  unfold append_if_absent. case_bool_decide as Hx.
  - split; [by right|]. by intros [->|].
  - rewrite elem_of_app, list_elem_of_singleton. tauto.
Qed.

Lemma elem_of_without (x y : list N) (arr : list (list N)) :
  y ∈ without x arr ↔ y ≠ x ∧ y ∈ arr.
Proof. unfold without. by rewrite list_elem_of_filter. Qed.

Lemma append_if_absent_twice (x : list N) (arr : list (list N)) :
  append_if_absent x (append_if_absent x arr) = append_if_absent x arr.
Proof.
  unfold append_if_absent at 1. rewrite bool_decide_eq_true_2; [done|].
  apply elem_of_append_if_absent. by left.
Qed.

Lemma without_twice (x : list N) (arr : list (list N)) :
  without x (without x arr) = without x arr.
Proof.
  unfold without. induction arr as [|y arr IH]; [done|].
  rewrite (filter_cons _ y arr). destruct (decide (y ≠ x)) as [Hy|Hy]; [|done].
  rewrite filter_cons. destruct (decide (y ≠ x)); [|done]. by rewrite IH.
Qed.

(** A channel is enabled right after [add_channel] and disabled right after
    [remove_channel]; doing either twice changes nothing more. *)
Theorem has_channel_after_add_remove (guild_id channel_id : Z) (d : document) :
  has_channel guild_id channel_id (add_channel guild_id channel_id d) = true
  ∧ has_channel guild_id channel_id (remove_channel guild_id channel_id d) = false
  ∧ add_channel guild_id channel_id (add_channel guild_id channel_id d)
    = add_channel guild_id channel_id d
  ∧ remove_channel guild_id channel_id (remove_channel guild_id channel_id d)
    = remove_channel guild_id channel_id d.
Proof.
  unfold has_channel, add_channel, remove_channel, get_list. simpl.
  rewrite !lookup_insert_eq. simpl. split_and!.
  - apply bool_decide_eq_true_2, elem_of_append_if_absent. by left.
  - apply bool_decide_eq_false_2. rewrite elem_of_without. tauto.
  - by rewrite insert_insert_eq, append_if_absent_twice.
  - by rewrite insert_insert_eq, without_twice.
Qed.

(** Enabling or disabling one channel of one tenant leaves every other
    channel, of that tenant or another, as it was, and touches neither the
    blacklists nor the settings. *)
Theorem channel_update_frame (guild_id channel_id guild_id' channel_id' : Z)
    (d : document) :
  (guild_id', channel_id') ≠ (guild_id, channel_id) →
  has_channel guild_id' channel_id' (add_channel guild_id channel_id d)
  = has_channel guild_id' channel_id' d
  ∧ has_channel guild_id' channel_id' (remove_channel guild_id channel_id d)
    = has_channel guild_id' channel_id' d
  ∧ blacklist (add_channel guild_id channel_id d) = blacklist d
  ∧ settings (add_channel guild_id channel_id d) = settings d
  ∧ blacklist (remove_channel guild_id channel_id d) = blacklist d
  ∧ settings (remove_channel guild_id channel_id d) = settings d.
Proof.
  intros Hne. split_and!; try done.
  - unfold has_channel, add_channel, get_list, _g. simpl.
    destruct (decide (guild_id' = guild_id)) as [->|Hg].
    + rewrite lookup_insert_eq. simpl. apply bool_decide_ext.
      rewrite elem_of_append_if_absent. split; [|by right].
      intros [E%(inj str_of_Z)|]; [congruence|done].
    + rewrite lookup_insert_ne; [done|]. by intros ?%(inj str_of_Z).
  - unfold has_channel, remove_channel, get_list, _g. simpl.
    destruct (decide (guild_id' = guild_id)) as [->|Hg].
    + rewrite lookup_insert_eq. simpl. apply bool_decide_ext.
      rewrite elem_of_without. split; [tauto|]. intros Hin. split; [|done].
      intros E%(inj str_of_Z). congruence.
    + rewrite lookup_insert_ne; [done|]. by intros ?%(inj str_of_Z).
Qed.

Lemma channel_update_frame_witness :
  has_channel 7 42 (add_channel 7 43 (add_channel 7 42 _DEFAULT))
  = has_channel 7 42 (add_channel 7 42 _DEFAULT).
Proof.
  apply (channel_update_frame 7 43 7 42 (add_channel 7 42 _DEFAULT)). discriminate.
Defined.

Section blacklist_round_trip.
Context {U : Unicode}.
Hypothesis upper_stable : ∀ c d, d ∈ upper_char c → upper_char d = [d].

Lemma list_blacklist_stored (guild_id : Z) (d : document) :
  store_ok d → list_blacklist guild_id d = get_list (blacklist d) (_g guild_id).
Proof.
  intros [_ Hb]. unfold list_blacklist, get_list.
  destruct (blacklist d !! _g guild_id) as [l|] eqn:E; simpl; [|done].
  destruct (Hb _ _ E) as [_ Hl]. clear E. induction Hl as [|x l Hx _ IH]; [done|].
  rewrite fmap_cons, IH. f_equal. exact Hx.
Qed.

(** On a store reached by the store's own operations, the blacklist is read
    back as stored; a code is on the list right after [add_blacklist] unless
    it is blank, and off it right after [remove_blacklist], in the form the
    store keeps: upper-cased and trimmed; two spellings with the same such
    form are one entry. *)
Theorem blacklist_after_add_remove (guild_id : Z) (code : list N) (d : document) :
  store_ok d →
  let key := strip (str_upper code) in
  ((key = [] → add_blacklist guild_id code d = d)
   ∧ list_blacklist guild_id d = get_list (blacklist d) (_g guild_id)
   ∧ (key ≠ [] → key ∈ list_blacklist guild_id (add_blacklist guild_id code d))
   ∧ (key ∉ list_blacklist guild_id (remove_blacklist guild_id code d))
   ∧ (∀ code', strip (str_upper code') = key →
        add_blacklist guild_id code' (add_blacklist guild_id code d)
        = add_blacklist guild_id code d)).
Proof.
  intros Hok key. subst key. split_and!.
  - intros Hkey. unfold add_blacklist. cbv zeta. by rewrite Hkey.
  - by apply list_blacklist_stored.
  - intros Hkey.
    rewrite list_blacklist_stored
      by apply (apply_op_ok upper_stable d (AddBlacklist guild_id code) Hok).
    unfold add_blacklist, get_list. cbv zeta.
    rewrite (nonempty_true _ Hkey). simpl.
    rewrite lookup_insert_eq. simpl. apply elem_of_append_if_absent. by left.
  - rewrite list_blacklist_stored
      by apply (apply_op_ok upper_stable d (RemoveBlacklist guild_id code) Hok).
    unfold remove_blacklist, get_list. simpl.
    rewrite lookup_insert_eq. simpl. rewrite elem_of_without. tauto.
  - intros code' Hcode'. unfold add_blacklist. cbv zeta. rewrite Hcode'.
    destruct (nonempty (strip (str_upper code))) eqn:Hkey; simpl; [|done].
    unfold get_list at 1. rewrite lookup_insert_eq. simpl.
    by rewrite insert_insert_eq, append_if_absent_twice.
Qed.
End blacklist_round_trip.

Lemma blacklist_after_add_remove_witness :
  py "FR" ∈ list_blacklist (U := ascii_tables) 7
              (add_blacklist (U := ascii_tables) 7 (py " fr ") _DEFAULT).
Proof.
  apply (blacklist_after_add_remove (U := ascii_tables) ascii_upper_stable 7 (py " fr ")
           _DEFAULT (store_ok_default (U := ascii_tables))).
  vm_compute. discriminate.
Defined.

(** ** config_store.py: settings read after write *)

Lemma update_fields_twice (kwargs : list (list N * option (list N)))
    (st : gmap (list N) (option (list N))) :
  update_fields kwargs (update_fields kwargs st) = update_fields kwargs st.
Proof.
  apply map_eq. intros k.
  rewrite (update_fields_lookup kwargs (update_fields kwargs st) _ None k eq_refl).
  rewrite (update_fields_lookup kwargs st st None k eq_refl).
  by destruct (foldl _ None kwargs).
Qed.

(** What [update_settings] returns is what the next [get_settings] returns,
    and that read changes nothing; a first read creates the tenant's empty
    record and later reads change nothing; the same update applied twice is
    the update applied once. *)
Theorem settings_read_after_write (guild_id : Z)
    (kwargs : list (list N * option (list N))) (d : document) :
  get_settings guild_id (update_settings guild_id kwargs d).2
  = update_settings guild_id kwargs d
  ∧ get_settings guild_id (get_settings guild_id d).2 = get_settings guild_id d
  ∧ update_settings guild_id kwargs (update_settings guild_id kwargs d).2
    = update_settings guild_id kwargs d
  ∧ update_settings guild_id [] d = get_settings guild_id d.
Proof.
  unfold update_settings, get_settings. simpl. rewrite !lookup_insert_eq. simpl.
  split_and!.
  - by rewrite insert_insert_eq.
  - by rewrite insert_insert_eq.
  - by rewrite !insert_insert_eq, update_fields_twice.
  - by rewrite insert_insert_eq.
Qed.

(** ** providers.py: what one [translate] does *)

Section returns_rules.
Context {B : Backend}.

Lemma returns_ret {A} (P : A → Prop) (a : A) : P a → returns P (ret a).
Proof. intros Ha s a' s' [= <- _]. done. Qed.

Lemma returns_raise {A} (P : A → Prop) (e : exn) : returns P (lift (Raise e)).
Proof. intros s a s' [=]. Qed.

Lemma returns_bind {X Y} (Q : X → Prop) (P : Y → Prop) (c : M X) (k : X → M Y) :
  returns Q c → (∀ a, Q a → returns P (k a)) → returns P (c ≫= k).
Proof.
  intros Hc Hk s b s'. rewrite bind_run.
  destruct (c s) as [[a|e] s1] eqn:E; [|done].
  intros Hb. eapply Hk; [|exact Hb]. by eapply Hc.
Qed.

Lemma returns_any {A} (c : M A) : returns (λ _, True) c.
Proof. by intros s a s' _. Qed.

Lemma returns_try_except {A} (P : A → Prop) (c h : M A) :
  returns P c → returns P h → returns P (try_except c h).
Proof.
  intros Hc Hh s a s'. unfold try_except.
  destruct (c s) as [[a'|e] s1] eqn:E.
  - intros [= <- <-]. by eapply Hc.
  - destruct (is_Exception e); [apply Hh|done].
Qed.

Lemma returns_ensure {A} (P : A → Prop) (c : M A) (after : M unit) :
  returns P c → returns P (ensure c after).
Proof.
  intros Hc s a s'. unfold ensure. destruct (c s) as [res s1] eqn:E.
  destruct (after s1) as [[[]|e] s2]; [|done]. intros [= -> _]. by eapply Hc.
Qed.

Lemma returns_with_client {A} (P : A → Prop) (timeout : Z) (body : M A) :
  returns P body → returns P (with_client timeout body).
Proof.
  intros Hbody. unfold with_client. eapply returns_bind; [apply returns_any|].
  intros [e|] _; [apply returns_raise|by apply returns_ensure].
Qed.
End returns_rules.

Section detected_case.
Context {U : Unicode} {B : Backend}.
Hypothesis upper_stable : ∀ c d, d ∈ upper_char c → upper_char d = [d].

Lemma json_upper_upper_cased (v : json) : returns upper_cased (lift (json_upper v)).
Proof.
  intros s a s'. destruct v; try done. intros [= <- _].
  by apply str_upper_fixed, str_upper_chars.
Qed.

Ltac returns_step :=
  lazymatch goal with
  | |- returns upper_cased (ret []) => apply returns_ret; reflexivity
  | |- returns upper_cased (lift (json_upper _)) => apply json_upper_upper_cased
  | |- returns _ (ret None) => apply returns_ret; done
  | |- returns _ (ret (Some _)) => apply returns_ret; by intros ? ? [= <- _]
  | |- returns _ (lift (Raise _)) => apply returns_raise
  | |- returns _ (try_except _ _) => apply returns_try_except
  | |- returns _ (with_client _ _) => apply returns_with_client
  | |- returns _ (lift (json_upper _) ≫= _) =>
      eapply returns_bind; [apply json_upper_upper_cased|intros ? ?]
  | |- returns _ (_ ≫= _) => eapply returns_bind; [apply returns_any|intros ? _]
  | |- returns _ (if ?b then _ else _) => destruct b
  | |- returns _ (match ?x with _ => _ end) => destruct x
  end.

Lemma libre_detect_upper_cased (c : M (list N)) :
  returns upper_cased c → returns upper_cased (try_except c (ret [])).
Proof. intros Hc. apply returns_try_except; [done|]. by apply returns_ret. Qed.

(** The language a provider reports is upper-cased (or empty), as the
    module's opening comment asks. *)
Theorem translate_detected_upper_cased (cfg : gmap (list N) (option (list N)))
    (k : provider_kind) (text target_lang : list N) (s s' : state)
    (detected : list N) (translated : json) :
  translate (variant cfg k) text target_lang s = (Ret (Some (detected, translated)), s') →
  str_upper detected = detected.
Proof.
  intros Hrun.
  assert (returns (λ res, ∀ d t, res = Some (d, t) → upper_cased d)
            (translate (variant cfg k) text target_lang)) as Hret;
    [|by eapply (Hret _ _ _ Hrun)].
  clear Hrun. destruct k; simpl.
  - repeat returns_step.
  - destruct (negb _); [repeat returns_step|]. apply returns_with_client.
    eapply returns_bind.
    + apply libre_detect_upper_cased. repeat returns_step.
    + intros d Hd. repeat returns_step.
  - repeat returns_step.
  - repeat returns_step.
Qed.
End detected_case.

Lemma translate_detected_upper_cased_witness :
  str_upper (U := ascii_tables) (py "FR") = py "FR".
Proof.
  apply (translate_detected_upper_cased (U := ascii_tables) (B := libre_french)
           ascii_upper_stable (default_settings env_with_libre) Libre
           (py "bonjour") (py "EN-US") (start (B := libre_french) _DEFAULT ())
           (translate (variant (U := ascii_tables) (B := libre_french)
                         (default_settings env_with_libre) Libre)
              (py "bonjour") (py "EN-US") (start (B := libre_french) _DEFAULT ())).2
           (py "FR") (JStr (py "hello everyone"))).
  reflexivity.
Defined.

(** ** providers.py: how many calls leave the process *)

Section call_counts.
Context {U : Unicode} {B : Backend}.

Lemma at_most_ret {A} (n : nat) (a : A) : at_most n (ret a).
Proof. intros s. exists []. rewrite app_nil_r. simpl. split; [done|lia]. Qed.

Lemma at_most_lift {A} (n : nat) (o : outcome A) : at_most n (lift o).
Proof. intros s. exists []. rewrite app_nil_r. simpl. split; [done|lia]. Qed.

Lemma at_most_on_world {A} (n : nat) (f : world → A * world) : at_most n (on_world f).
Proof.
  intros s. exists []. unfold on_world. destruct (f (st_world s)). simpl.
  rewrite app_nil_r. split; [done|lia].
Qed.

Lemma at_most_on_data {A} (n : nat) (f : document → A * document) : at_most n (on_data f).
Proof.
  intros s. exists []. unfold on_data. destruct (f (st_data s)). simpl.
  rewrite app_nil_r. split; [done|lia].
Qed.

Lemma at_most_log (e : event) : at_most (if is_outbound e then 1 else 0) (log e).
Proof.
  intros s. exists [e]. split; [done|].
  rewrite filter_cons, filter_nil. destruct (is_outbound e); simpl; lia.
Qed.

Lemma at_most_weaken {A} (n m : nat) (c : M A) :
  (n ≤ m)%nat → at_most n c → at_most m c.
Proof.
  intros Hnm Hc s. destruct (Hc s) as (evs & Htr & Hn). exists evs. split; [done|lia].
Qed.

Lemma at_most_bind {X Y} (n m : nat) (c : M X) (k : X → M Y) :
  at_most n c → (∀ a, at_most m (k a)) → at_most (n + m) (c ≫= k).
Proof.
  intros Hc Hk s. rewrite bind_run.
  destruct (Hc s) as (evs & Htr & Hn). destruct (c s) as [[a|e] s1]; simpl in *.
  - destruct (Hk a s1) as (evs' & Htr' & Hm).
    exists (evs ++ evs'). rewrite Htr', Htr, app_assoc. split; [done|].
    rewrite filter_app, length_app. lia.
  - exists evs. split; [done|lia].
Qed.

Lemma at_most_try_except {A} (n m : nat) (c h : M A) :
  at_most n c → at_most m h → at_most (n + m) (try_except c h).
Proof.
  intros Hc Hh s. unfold try_except.
  destruct (Hc s) as (evs & Htr & Hn). destruct (c s) as [[a|e] s1]; simpl in *.
  - exists evs. split; [done|lia].
  - destruct (is_Exception e); [|exists evs; split; [done|lia]].
    destruct (Hh s1) as (evs' & Htr' & Hm).
    exists (evs ++ evs'). rewrite Htr', Htr, app_assoc. split; [done|].
    rewrite filter_app, length_app. lia.
Qed.

Lemma at_most_ensure {A} (n m : nat) (c : M A) (after : M unit) :
  at_most n c → at_most m after → at_most (n + m) (ensure c after).
Proof.
  intros Hc Ha s. unfold ensure.
  destruct (Hc s) as (evs & Htr & Hn). destruct (c s) as [res s1]; simpl in *.
  destruct (Ha s1) as (evs' & Htr' & Hm).
  exists (evs ++ evs'). rewrite app_assoc, <- Htr. split.
  - by destruct (after s1) as [[[]|e] s2].
  - rewrite filter_app, length_app. lia.
Qed.

Lemma at_most_with_client {A} (n : nat) (timeout : Z) (body : M A) :
  at_most n body → at_most n (with_client timeout body).
Proof.
  intros Hbody. unfold with_client.
  apply (at_most_bind 0 n); [apply at_most_on_world|].
  intros [e|]; [apply at_most_lift|].
  eapply at_most_weaken; [|apply (at_most_ensure n 0); [done|]]; [lia|].
  apply (at_most_bind 0 0); [apply at_most_on_world|].
  intros [e|]; [apply at_most_lift|apply at_most_ret].
Qed.

Lemma send_at_most (r : request) : at_most 1 (send r).
Proof.
  unfold send. apply (at_most_bind 1 0); [apply (at_most_log (EvHttp r))|].
  intros _. apply (at_most_bind 0 0); [apply at_most_on_world|].
  intros []; [apply at_most_lift..|apply at_most_ret].
Qed.

(** The steps that follow the one request of a [try] block make no call. *)
Ltac quiet_tail :=
  repeat first
    [ apply at_most_ret | apply at_most_lift
    | apply (at_most_bind 0 0); [|intros ?]
    | match goal with
      | |- at_most _ (response_json ?r) => unfold response_json; destruct (r.2)
      | |- at_most _ (if ?b then _ else _) => destruct b
      | |- at_most _ (match ?x with _ => _ end) => destruct x
      end ].

Lemma one_request_block {A} (r : request) (k : Z * option json → M A) (h : A) :
  (∀ a, at_most 0 (k a)) → at_most 1 (try_except (send r ≫= k) (ret h)).
Proof.
  intros Hk. apply (at_most_try_except 1 0); [|apply at_most_ret].
  apply (at_most_bind 1 0); [apply send_at_most|done].
Qed.

Lemma translate_at_most (cfg : gmap (list N) (option (list N))) (k : provider_kind)
    (text target_lang : list N) :
  at_most (calls k) (translate (variant cfg k) text target_lang).
Proof.
  destruct k; simpl.
  - destruct (negb _); [apply at_most_ret|].
    apply (at_most_try_except 1 0); [|apply at_most_ret].
    apply (at_most_bind 1 0); [apply (at_most_log (EvDeepl _ _))|]. intros _.
    apply (at_most_bind 0 0); [apply at_most_on_world|]. intros ?. quiet_tail.
  - destruct (negb _); [apply at_most_ret|]. apply at_most_with_client.
    apply (at_most_bind 1 1).
    + apply one_request_block. intros ?. quiet_tail.
    + intros ?. apply one_request_block. intros ?. quiet_tail.
  - destruct (negb _); [apply at_most_ret|].
    apply (at_most_bind 0 1); [apply at_most_lift|]. intros ?. apply at_most_with_client.
    apply one_request_block. intros ?. quiet_tail.
  - destruct (negb _); [apply at_most_ret|]. apply at_most_with_client.
    apply one_request_block. intros ?. quiet_tail.
Qed.

Lemma translate_via_chain_at_most (cfg : gmap (list N) (option (list N)))
    (kinds : list provider_kind) (text target_lang : list N) :
  at_most (sum_list (calls <$> kinds))
    (translate_via_chain (variant cfg <$> kinds) text target_lang).
Proof.
  induction kinds as [|k kinds IH]; [apply at_most_ret|].
  rewrite !fmap_cons. cbn [sum_list translate_via_chain].
  apply at_most_bind.
  - unfold invoke. apply (at_most_bind 0); [apply (at_most_log (EvTranslate _ _))|].
    intros _. apply translate_at_most.
  - intros [[d t]|]; [|done]. destruct t; try apply at_most_lift.
    destruct (nonempty _); [apply at_most_ret|done].
Qed.

Lemma calls_of_configured (cfg : gmap (list N) (option (list N))) (selected : provider_kind) :
  (sum_list (calls <$> configured_kinds cfg selected) ≤ 5)%nat.
Proof.
  unfold configured_kinds.
  assert (∀ l : list provider_kind,
            (sum_list (calls <$> filter (λ k, is_configured (variant cfg k) = true) l)
             ≤ sum_list (calls <$> l))%nat) as Hle.
  { induction l as [|k l IH]; [done|]. rewrite filter_cons.
    destruct (decide _); rewrite ?fmap_cons; simpl; lia. }
  etrans; [apply Hle|]. destruct selected; vm_compute; lia.
Qed.
End call_counts.

(** ** providers.py: the shape of the chain *)

#[global] Instance kind_name_inj : Inj (=) (=) kind_name.
Proof. intros [] [] E; first [done | by vm_compute in E]. Qed.

Section chain_shape.
Context {U : Unicode} {B : Backend}.

Lemma build_provider_chain_chain_kinds (cfg : gmap (list N) (option (list N)))
    (selected : provider_kind) :
  selected_name cfg = kind_name selected →
  build_provider_chain cfg = Ret (variant cfg <$> chain_kinds cfg selected).
Proof.
  intros Hsel. rewrite (build_provider_chain_kinds _ _ Hsel). unfold chain_kinds.
  by destruct (configured_kinds cfg selected).
Qed.

Lemma chain_kinds_NoDup (cfg : gmap (list N) (option (list N))) (selected : provider_kind) :
  NoDup (chain_kinds cfg selected).
Proof.
  unfold chain_kinds. destruct (configured_kinds cfg selected) as [|k ks] eqn:E.
  - apply NoDup_singleton.
  - rewrite <- E. apply NoDup_filter, priority_NoDup.
Qed.

Lemma foldl_chain_step_raise (m : list (list N * TranslationProvider)) (e : exn)
    (order : list (list N)) :
  foldl (chain_step m) (Raise e) order = Raise e.
Proof. by induction order. Qed.

Lemma build_provider_chain_unknown (cfg : gmap (list N) (option (list N))) :
  (∀ k, selected_name cfg ≠ kind_name k) → build_provider_chain cfg = Raise KeyError.
Proof.
  intros Hno. unfold build_provider_chain. cbn [foldl].
  assert (subscript (all_map cfg) (selected_name cfg) = Raise KeyError) as Hsub.
  { unfold subscript, all_map. cbn [assoc].
    rewrite !bool_decide_eq_false_2; [done|apply (Hno Simply)|apply (Hno Lingva)
                                     |apply (Hno Libre)|apply (Hno Deepl)]. }
  unfold chain_step at 2. rewrite Hsub. by rewrite foldl_chain_step_raise.
Qed.

Lemma selected_name_known_dec (cfg : gmap (list N) (option (list N))) :
  (∃ k, selected_name cfg = kind_name k) ∨ (∀ k, selected_name cfg ≠ kind_name k).
Proof.
  destruct (decide (selected_name cfg = kind_name Deepl)); [left; by eexists|].
  destruct (decide (selected_name cfg = kind_name Libre)); [left; by eexists|].
  destruct (decide (selected_name cfg = kind_name Lingva)); [left; by eexists|].
  destruct (decide (selected_name cfg = kind_name Simply)); [left; by eexists|].
  right. by intros [].
Qed.

(** Whatever the settings, [build_provider_chain] either raises [KeyError]
    (the selected name is none of the four) or returns a chain of variants
    built from the settings. *)
Lemma build_provider_chain_cases (cfg : gmap (list N) (option (list N))) :
  (build_provider_chain cfg = Raise KeyError ∧ ∀ k, selected_name cfg ≠ kind_name k)
  ∨ ∃ selected, selected_name cfg = kind_name selected
                ∧ build_provider_chain cfg = Ret (variant cfg <$> chain_kinds cfg selected).
Proof.
  destruct (selected_name_known_dec cfg) as [[k Hk]|Hno].
  - right. exists k. split; [done|]. by apply build_provider_chain_chain_kinds.
  - left. split; [|done]. by apply build_provider_chain_unknown.
Qed.

(** The chain is never empty, holds no variant twice and at most the four;
    the selected variant leads it whenever it is configured, and a variant
    that is not configured is in it only as its single element. *)
Theorem build_provider_chain_shape (cfg : gmap (list N) (option (list N)))
    (selected : provider_kind) :
  selected_name cfg = kind_name selected →
  ∃ chain,
    build_provider_chain cfg = Ret chain
    ∧ chain ≠ []
    ∧ (length chain ≤ 4)%nat
    ∧ NoDup (name <$> chain)
    ∧ (is_configured (variant cfg selected) = true →
       head chain = Some (variant cfg selected))
    ∧ (∀ prov, prov ∈ chain → is_configured prov = false → chain = [prov]).
Proof.
  intros Hsel. exists (variant cfg <$> chain_kinds cfg selected).
  pose proof (chain_kinds_NoDup cfg selected) as Hnd.
  split_and!.
  - by apply build_provider_chain_chain_kinds.
  - unfold chain_kinds. by destruct (configured_kinds cfg selected).
  - rewrite length_fmap.
    assert (chain_kinds cfg selected ⊆+ canonical_order) as Hsub.
    { apply NoDup_submseteq; [done|]. intros k _. destruct k; set_solver. }
    apply submseteq_length in Hsub. done.
  - replace (name <$> (variant cfg <$> chain_kinds cfg selected))
      with (kind_name <$> chain_kinds cfg selected).
    + by apply (NoDup_fmap_2 _).
    + rewrite <- list_fmap_compose. apply list_fmap_ext. intros i k _. by destruct k.
  - intros Hconf. unfold chain_kinds, configured_kinds, priority.
    rewrite filter_cons. by destruct (decide _).
  - intros prov Hin Hun. unfold chain_kinds in *.
    destruct (configured_kinds cfg selected) as [|k ks] eqn:E.
    + by apply list_elem_of_fmap in Hin as (k' & -> & ->%list_elem_of_singleton).
    + apply list_elem_of_fmap in Hin as (k' & -> & Hk'). rewrite <- E in Hk'.
      apply list_elem_of_filter in Hk' as [Hk' _]. congruence.
Qed.

(** [build_provider_chain] raises exactly when the selected name, once
    lower-cased, is none of the four provider names, and what it raises then
    is [KeyError]. *)
Theorem build_provider_chain_raises_on_unknown_name_only
    (cfg : gmap (list N) (option (list N))) :
  (build_provider_chain cfg = Raise KeyError ↔ ∀ k, selected_name cfg ≠ kind_name k)
  ∧ ∀ e, build_provider_chain cfg = Raise e → e = KeyError.
Proof.
  destruct (build_provider_chain_cases cfg) as [[Hraise Hno]|(k & Hk & Hret)].
  - rewrite Hraise. split; [done|]. by intros e [= <-].
  - rewrite Hret. split; [|done]. split; [done|]. intros Hno. by destruct (Hno k).
Qed.
End chain_shape.

Lemma build_provider_chain_shape_witness :
  ∃ chain,
    build_provider_chain (U := ascii_tables) (B := offline) two_providers = Ret chain
    ∧ head chain = Some (variant (U := ascii_tables) two_providers Lingva)
    ∧ (length chain ≤ 4)%nat.
Proof.
  destruct (build_provider_chain_shape (U := ascii_tables) (B := offline)
              two_providers Lingva eq_refl) as (chain & Hret & _ & Hlen & _ & Hhead & _).
  exists chain. split_and!; [done|by apply Hhead|done].
Defined.

(** ** providers.py: every outcome of a dispatch *)

Section dispatch_outcomes.
Context {B : Backend}.

Lemma translate_via_chain_inv (chain : list TranslationProvider)
    (text target_lang : list N) (s s' : state)
    (o : outcome (option (list N * list N * list N))) :
  translate_via_chain chain text target_lang s = (o, s') →
  match o with
  | Ret None => declines text target_lang chain s s'
  | Ret (Some (n, detected, t)) =>
      ∃ pre prov post s1,
        chain = pre ++ prov :: post
        ∧ declines text target_lang pre s s1
        ∧ invoke prov text target_lang s1 = (Ret (Some (detected, JStr t)), s')
        ∧ strip t ≠ [] ∧ name prov = n
  | Raise e =>
      ∃ pre prov post s1,
        chain = pre ++ prov :: post
        ∧ declines text target_lang pre s s1
        ∧ (invoke prov text target_lang s1 = (Raise e, s')
           ∨ e = AttributeError
             ∧ ∃ detected v, invoke prov text target_lang s1 = (Ret (Some (detected, v)), s')
                             ∧ not_a_string v)
  end.
Proof.
  revert s. induction chain as [|prov chain IH]; intros s.
  { intros [= <- <-]. constructor. }
  rewrite translate_via_chain_cons.
  destruct (invoke prov text target_lang s) as [[[[d v]|]|e] s1] eqn:Hcall.
  - destruct v as [| | |t| |];
      try (intros [= <- <-]; exists [], prov, chain, s;
           split_and!; [done|constructor|]; right; split; [done|];
           by eexists _, _).
    destruct (nonempty (strip t)) eqn:Ht.
    + intros [= <- <-]. exists [], prov, chain, s.
      split_and!; [done|constructor|done| |done]. by destruct (strip t).
    + intros Hrest. specialize (IH _ Hrest).
      assert (declined (Some (d, JStr t))) as Hdec.
      { right. exists d, t. split; [done|]. by destruct (strip t). }
      destruct o as [[[[n d'] t']|]|e].
      * destruct IH as (pre & p & post & s2 & -> & Hpre & Hp).
        exists (prov :: pre), p, post, s2. split_and!; [done| |apply Hp..].
        by eapply declines_cons.
      * by eapply declines_cons.
      * destruct IH as (pre & p & post & s2 & -> & Hpre & Hp).
        exists (prov :: pre), p, post, s2. split_and!; [done| |apply Hp].
        by eapply declines_cons.
  - intros Hrest. specialize (IH _ Hrest).
    assert (declined None) as Hdec by (by left).
    destruct o as [[[[n d'] t']|]|e].
    + destruct IH as (pre & p & post & s2 & -> & Hpre & Hp).
      exists (prov :: pre), p, post, s2. split_and!; [done| |apply Hp..].
      by eapply declines_cons.
    + by eapply declines_cons.
    + destruct IH as (pre & p & post & s2 & -> & Hpre & Hp).
      exists (prov :: pre), p, post, s2. split_and!; [done| |apply Hp].
      by eapply declines_cons.
  - intros [= <- <-]. exists [], prov, chain, s.
    split_and!; [done|constructor|by left].
Qed.

(** Whatever a dispatch comes to is due to one position of the chain, whose
    predecessors all declined: a result is the non-blank answer of the
    provider at that position, under its name; nothing means every provider
    declined; an exception is the one the provider at that position raised,
    or [AttributeError] for a translation that is no string. *)
Theorem translate_via_chain_outcomes (chain : list TranslationProvider)
    (text target_lang : list N) (s : state) :
  let run := translate_via_chain chain text target_lang s in
  match run.1 with
  | Ret None => declines text target_lang chain s run.2
  | Ret (Some (n, detected, t)) =>
      ∃ pre prov post s1,
        chain = pre ++ prov :: post
        ∧ declines text target_lang pre s s1
        ∧ invoke prov text target_lang s1 = (Ret (Some (detected, JStr t)), run.2)
        ∧ strip t ≠ [] ∧ name prov = n
  | Raise e =>
      ∃ pre prov post s1,
        chain = pre ++ prov :: post
        ∧ declines text target_lang pre s s1
        ∧ (invoke prov text target_lang s1 = (Raise e, run.2)
           ∨ e = AttributeError
             ∧ ∃ detected v, invoke prov text target_lang s1 = (Ret (Some (detected, v)), run.2)
                             ∧ not_a_string v)
  end.
Proof.
  intros run. apply (translate_via_chain_inv chain text target_lang s run.2 run.1).
  subst run. by destruct (translate_via_chain chain text target_lang s).
Qed.

(** An exception of a provider ends the dispatch: the providers after it are
    not tried, even if they would answer. *)
Theorem translate_via_chain_no_fallback_on_exception
    (pre post : list TranslationProvider) (prov : TranslationProvider)
    (text target_lang : list N) (s s1 s2 : state) (e : exn) :
  declines text target_lang pre s s1 →
  invoke prov text target_lang s1 = (Raise e, s2) →
  translate_via_chain (pre ++ prov :: post) text target_lang s = (Raise e, s2).
Proof.
  intros Hpre Hcall.
  by rewrite (declines_skip _ _ _ _ _ _ Hpre), translate_via_chain_cons, Hcall.
Qed.
End dispatch_outcomes.

Lemma translate_via_chain_no_fallback_on_exception_witness :
  let lingva := variant (U := ascii_tables) (B := libre_french) two_providers Lingva in
  let libre := variant (U := ascii_tables) (B := libre_french) two_providers Libre in
  let s := start (B := libre_french) _DEFAULT () in
  (translate_via_chain [libre] [55296] (py "EN-US") s).1
  = Ret (Some (py "libre", py "FR", py "hello everyone"))
  ∧ translate_via_chain ([] ++ lingva :: [libre]) [55296] (py "EN-US") s
    = (Raise UnicodeEncodeError,
       @Build_state libre_french _DEFAULT () [EvTranslate (py "lingva") true]).
Proof.
  intros lingva libre s. split; [by vm_compute|].
  apply (translate_via_chain_no_fallback_on_exception (B := libre_french)
           [] [libre] lingva [55296] (py "EN-US") s s).
  - constructor.
  - reflexivity.
Defined.

(** ** providers.py: calls made and answers missing *)

Lemma outbound_is_outbound (e : event) : outbound e → is_outbound e = true.
Proof. by destruct e. Qed.

Section variant_runs.
Context {U : Unicode} {B : Backend}.

(** One run of a variant's [translate] makes at most two outbound calls if
    it is the LibreTranslate variant and at most one otherwise, and none at
    all when the variant is not configured. *)
Theorem translate_call_bound (cfg : gmap (list N) (option (list N))) (k : provider_kind)
    (text target_lang : list N) (s : state) :
  ∃ evs,
    st_trace (translate (variant cfg k) text target_lang s).2 = st_trace s ++ evs
    ∧ Forall outbound evs
    ∧ (length evs ≤ calls k)%nat
    ∧ (is_configured (variant cfg k) = false → evs = []).
Proof.
  destruct (variant_outbound cfg k text target_lang s) as (evs & Htr & Hout).
  destruct (translate_at_most cfg k text target_lang s) as (evs' & Htr' & Hn).
  assert (evs' = evs) as -> by (apply (app_inv_head (st_trace s)); congruence).
  exists evs. split_and!; [done..| |].
  - replace (filter (λ e, is_outbound e = true) evs) with evs in Hn; [done|].
    clear -Hout. induction Hout as [|e evs He _ IH]; [done|].
    rewrite filter_cons, decide_True by by apply outbound_is_outbound. by f_equal.
  - intros Hun. rewrite (unconfigured_returns_nothing _ _ _ _ Hun) in Htr. simpl in Htr.
    symmetry. apply (app_inv_head (st_trace s)). by rewrite app_nil_r.
Qed.

Lemma all_down_never_cancelled : all_down → never_cancelled.
Proof.
  intros (_ & Hsend & Hdeepl). split.
  - intros r w. by destruct (Hsend r w) as [->|(c & b & -> & _)].
  - intros key text target_lang w. by rewrite Hdeepl.
Qed.

(** A [try] block that opens with a request and gives up on any status but
    200 comes to nothing when no back-end answers. *)
Lemma request_block_down {A} (r : request) (ok : Z * option json → M (option A))
    (s : state) :
  all_down →
  ∃ s', try_except (rep ← send r; if negb (rep.1 =? 200)%Z then ret None else ok rep)
          (ret None) s = (Ret None, s').
Proof.
  intros (_ & Hdown & _). unfold try_except. rewrite bind_run, send_run.
  destruct (Hdown r (st_world s)) as [Hr|(c & b & Hr & Hc)];
    destruct (http_send r (st_world s)) as [[| |c' b'] w]; simpl in *; try done.
  - by eexists.
  - injection Hr as -> ->. destruct (Z.eqb_spec c 200); [done|]. by eexists.
Qed.

Lemma translate_down (cfg : gmap (list N) (option (list N))) (k : provider_kind)
    (text target_lang : list N) (s : state) :
  all_down →
  (∃ bytes, utf8_encode text = Ret bytes) →
  ∃ s', translate (variant cfg k) text target_lang s = (Ret None, s').
Proof.
  intros Hdown Henc. pose proof (all_down_never_cancelled Hdown) as Hnc.
  pose proof Hdown as (Hclients & _ & Hd). destruct k; simpl.
  - destruct (negb _); [by eexists|].
    unfold try_except. rewrite !bind_run. simpl. rewrite bind_run. unfold on_world. simpl.
    match goal with
    | |- context [deepl_translateText ?a ?b ?c ?w] =>
        pose proof (Hd a b c w) as Hr; destruct (deepl_translateText a b c w) as [rep w']
    end.
    simpl in Hr. subst rep. by eexists.
  - destruct (negb _); [by eexists|]. apply with_client_returns; [done|]. intros s0.
    rewrite bind_run.
    match goal with
    | |- context [try_except ?c (ret []) s0] =>
        destruct (raises_nothing_returns (try_except c (ret [])) s0) as (d & s1 & ->);
          [apply guarded_raises_nothing; repeat raises_step|]
    end.
    by apply request_block_down.
  - destruct (negb _); [by eexists|].
    destruct (quote_returns text Henc) as [query Hq].
    rewrite bind_run, Hq. simpl. apply with_client_returns; [done|]. intros s0.
    by apply request_block_down.
  - destruct (negb _); [by eexists|]. apply with_client_returns; [done|]. intros s0.
    by apply request_block_down.
Qed.

Lemma translate_via_chain_down (cfg : gmap (list N) (option (list N)))
    (kinds : list provider_kind) (text target_lang : list N) (s : state) :
  all_down →
  (∃ bytes, utf8_encode text = Ret bytes) →
  ∃ s', translate_via_chain (variant cfg <$> kinds) text target_lang s = (Ret None, s').
Proof.
  intros Hdown Henc. revert s. induction kinds as [|k kinds IH]; intros s; [by eexists|].
  rewrite fmap_cons, translate_via_chain_cons. unfold invoke. rewrite bind_run. simpl.
  match goal with
  | |- context [translate (variant cfg k) text target_lang ?s1] =>
      destruct (translate_down cfg k text target_lang s1 Hdown Henc) as [s2 ->]
  end.
  apply IH.
Qed.

(** When no back-end answers (the HTTP clients can be built and closed and
    the task is not cancelled, but every request fails or comes back with a
    status other than 200, and the DeepL client raises), a dispatch over the
    chain built from the settings returns nothing, for any text that UTF-8
    can encode: it does not raise. *)
Theorem translate_via_chain_all_down (cfg : gmap (list N) (option (list N)))
    (selected : provider_kind) (text target_lang : list N) (s : state) :
  all_down →
  selected_name cfg = kind_name selected →
  (∃ bytes, utf8_encode text = Ret bytes) →
  ∃ chain s',
    build_provider_chain cfg = Ret chain
    ∧ translate_via_chain chain text target_lang s = (Ret None, s').
Proof.
  intros Hdown Hsel Henc.
  destruct (translate_via_chain_down cfg (chain_kinds cfg selected) text target_lang s
              Hdown Henc) as [s' Hrun].
  eexists _, s'. split; [by apply build_provider_chain_chain_kinds|done].
Qed.
End variant_runs.

Lemma offline_all_down : all_down (B := offline).
Proof. split_and!; [by split|by left|done]. Qed.

Lemma translate_via_chain_all_down_witness :
  ∃ chain s',
    build_provider_chain (U := ascii_tables) (B := offline) two_providers = Ret chain
    ∧ translate_via_chain chain (py "hola") (py "EN-US") (start (B := offline) _DEFAULT ())
      = (Ret None, s').
Proof.
  apply (translate_via_chain_all_down (U := ascii_tables) (B := offline)
           two_providers Lingva (py "hola") (py "EN-US") _ offline_all_down eq_refl).
  by eexists.
Defined.

(** ** providers.py: the configuration document is out of reach *)

Section data_rules.
Context {U : Unicode} {B : Backend}.

Lemma keeps_data_ret {A} (a : A) : keeps_data (ret a).
Proof. done. Qed.

Lemma keeps_data_lift {A} (o : outcome A) : keeps_data (lift o).
Proof. done. Qed.

Lemma keeps_data_log (e : event) : keeps_data (log e).
Proof. done. Qed.

Lemma keeps_data_on_world {A} (f : world → A * world) : keeps_data (on_world f).
Proof. intros s. unfold on_world. by destruct (f (st_world s)). Qed.

Lemma keeps_data_bind {X Y} (c : M X) (k : X → M Y) :
  keeps_data c → (∀ a, keeps_data (k a)) → keeps_data (c ≫= k).
Proof.
  intros Hc Hk s. rewrite bind_run. specialize (Hc s).
  destruct (c s) as [[a|e] s1]; simpl in *; [|done]. by rewrite Hk.
Qed.

Lemma keeps_data_try_except {A} (c h : M A) :
  keeps_data c → keeps_data h → keeps_data (try_except c h).
Proof.
  intros Hc Hh s. unfold try_except. specialize (Hc s).
  destruct (c s) as [[a|e] s1]; simpl in *; [done|].
  destruct (is_Exception e); [by rewrite Hh|done].
Qed.

Lemma keeps_data_ensure {A} (c : M A) (after : M unit) :
  keeps_data c → keeps_data after → keeps_data (ensure c after).
Proof.
  intros Hc Ha s. unfold ensure. specialize (Hc s). destruct (c s) as [res s1].
  specialize (Ha s1). destruct (after s1) as [[[]|e] s2]; simpl in *; congruence.
Qed.

Ltac keeps_data_step :=
  lazymatch goal with
  | |- keeps_data (ret _) => apply keeps_data_ret
  | |- keeps_data (lift _) => apply keeps_data_lift
  | |- keeps_data (log _) => apply keeps_data_log
  | |- keeps_data (on_world _) => apply keeps_data_on_world
  | |- keeps_data (try_except _ _) => apply keeps_data_try_except
  | |- keeps_data (ensure _ _) => apply keeps_data_ensure
  | |- keeps_data (with_client _ _) => unfold with_client
  | |- keeps_data (send _) => unfold send
  | |- keeps_data (response_json _) => unfold response_json
  | |- keeps_data (_ ≫= _) => apply keeps_data_bind; [|intros ?]
  | |- keeps_data (if ?b then _ else _) => destruct b
  | |- keeps_data (match ?x with _ => _ end) => destruct x
  end.

Lemma translate_keeps_data (cfg : gmap (list N) (option (list N))) (k : provider_kind)
    (text target_lang : list N) :
  keeps_data (translate (variant cfg k) text target_lang).
Proof. destruct k; simpl; repeat keeps_data_step. Qed.

Lemma translate_via_chain_keeps_data (cfg : gmap (list N) (option (list N)))
    (kinds : list provider_kind) (text target_lang : list N) :
  keeps_data (translate_via_chain (variant cfg <$> kinds) text target_lang).
Proof.
  induction kinds as [|k kinds IH]; [done|].
  rewrite fmap_cons. cbn [translate_via_chain]. unfold invoke.
  repeat keeps_data_step; try done. apply translate_keeps_data.
Qed.


End data_rules.


(** ** app.py: one run of the pipeline *)

Section pipeline_runs.
Context {U : Unicode} {B : Backend}.

Lemma skip_reason_nonempty (e : env) (text : list N) (force : bool) (why : list N) :
  skip_reason e text force = Some why → why ≠ [].
Proof.
  unfold skip_reason. intros H.
  repeat match type of H with
         | (if ?b then _ else _) = _ => destruct b
         end; try discriminate; injection H as <-; by vm_compute.
Qed.

Lemma provider_settings_run (e : env) (guild_id : option Z) (s : state) :
  provider_settings e guild_id s
  = (Ret (merged_settings e guild_id (st_data s)),
     with_data (after_merge guild_id (st_data s)) s).
Proof.
  unfold provider_settings, merged_settings, after_merge, with_data.
  destruct (given guild_id) as [g|]; [done|]. by rewrite state_eta.
Qed.

Lemma guild_blacklist_run (e : env) (guild_id : option Z) (s : state) :
  guild_blacklist e guild_id s = (Ret (effective_blacklist e guild_id (st_data s)), s).
Proof.
  unfold guild_blacklist, effective_blacklist. destruct (given guild_id) as [g|]; [|done].
  rewrite bind_run. unfold on_data. simpl. by rewrite state_eta.
Qed.

Lemma post_filter_run (e : env) (guild_id : option Z) (text : list N)
    (apply_blacklist : bool) (result : list N * list N * list N) (s : state) :
  post_filter e guild_id text apply_blacklist result s
  = (Ret (filtered e guild_id text apply_blacklist result (st_data s)), s).
Proof.
  destruct result as [[n d] t]. unfold post_filter, filtered, header.
  set (b1 := startswith _ _). set (b2 := bool_decide (normalize _ = _)).
  set (h := if SHOW_SOURCE_LANG e && nonempty d then _ else _). clearbody b1 b2 h.
  rewrite bind_run. destruct apply_blacklist.
  - rewrite bind_run, guild_blacklist_run. cbn [andb].
    by destruct (nonempty d && bool_decide _), b1, b2.
  - by destruct b1, b2.
Qed.

(** The pipeline, step by step. *)
Lemma translate_pipeline_run (e : env) (guild_id : option Z) (text : list N)
    (force apply_blacklist : bool) (s : state) :
  translate_pipeline e guild_id text force apply_blacklist s
  = match skip_reason e text force with
    | Some _ => (Ret None, s)
    | None =>
        let s1 := with_data (after_merge guild_id (st_data s)) s in
        match build_provider_chain (merged_settings e guild_id (st_data s)) with
        | Raise err => (Raise err, s1)
        | Ret chain =>
            match translate_via_chain chain text (py "EN-US") s1 with
            | (Ret (Some r), s2) =>
                (Ret (filtered e guild_id text apply_blacklist r (st_data s2)), s2)
            | (Ret None, s2) => (Ret None, s2)
            | (Raise err, s2) => (Raise err, s2)
            end
        end
    end.
Proof.
  unfold translate_pipeline.
  destruct (skip_reason e text force) as [why|] eqn:Hwhy.
  - apply skip_reason_nonempty in Hwhy. by destruct why.
  - rewrite bind_run, provider_settings_run, bind_run. cbv zeta.
    destruct (build_provider_chain _) as [chain|err]; [|done]. simpl.
    rewrite bind_run.
    destruct (translate_via_chain chain text (py "EN-US") _) as [[[r|]|err] s2]; try done.
    apply post_filter_run.
Qed.

Lemma variant_name (cfg : gmap (list N) (option (list N))) (k : provider_kind) :
  name (variant cfg k) = kind_name k.
Proof. by destruct k. Qed.

(** A text the classifier rejects goes no further: the pipeline returns
    nothing and leaves the state as it found it (no settings record is
    created, no provider is entered, no call is made). In particular no
    reason is the empty string, which [if why:] would let through. *)
Theorem translate_pipeline_rejected (e : env) (guild_id : option Z) (text : list N)
    (force apply_blacklist : bool) (s : state) (why : list N) :
  skip_reason e text force = Some why →
  why ≠ []
  ∧ translate_pipeline e guild_id text force apply_blacklist s = (Ret None, s).
Proof.
  intros Hwhy. split; [by eapply skip_reason_nonempty|].
  by rewrite translate_pipeline_run, Hwhy.
Qed.

Lemma translate_pipeline_inv (e : env) (guild_id : option Z) (text : list N)
    (force apply_blacklist : bool) (s s' : state) (n detected composed : list N) :
  translate_pipeline e guild_id text force apply_blacklist s
  = (Ret (Some (n, detected, composed)), s') →
  skip_reason e text force = None
  ∧ (∃ k, n = kind_name k)
  ∧ ∃ d translated,
      detected = str_upper d
      ∧ composed = header e n d ++ translated
      ∧ strip translated ≠ []
      ∧ startswith (py "EN") detected = false
      ∧ normalize translated ≠ normalize text
      ∧ (apply_blacklist = true → d ≠ [] →
         detected ∉ effective_blacklist e guild_id (st_data s')).
Proof.
  rewrite translate_pipeline_run.
  destruct (skip_reason e text force) as [why|]; [done|]. cbv zeta.
  destruct (build_provider_chain_cases (merged_settings e guild_id (st_data s)))
    as [[-> _]|(sel & _ & ->)]; [done|].
  destruct (translate_via_chain _ text (py "EN-US") _) as [[[[[n' d] t]|]|err] s2] eqn:Hrun;
    [|done..].
  apply translate_via_chain_inv in Hrun as (pre & prov & post & s1 & Hchain & _ & _ & Ht & Hn).
  unfold filtered.
  destruct (apply_blacklist && nonempty d && bool_decide _) eqn:Hbl; [done|].
  destruct (startswith _ _) eqn:Hen; [by intros [=]|].
  destruct (bool_decide_reflect (normalize t = normalize text)) as [Hsame|Hsame]; [by intros [=]|].
  intros [= <- <- <- <-]. split; [done|]. split.
  - assert (prov ∈ variant (merged_settings e guild_id (st_data s))
                   <$> chain_kinds (merged_settings e guild_id (st_data s)) sel) as Hin
      by (rewrite Hchain; set_solver).
    apply list_elem_of_fmap in Hin as (k & -> & _). exists k. by rewrite <- Hn, variant_name.
  - exists d, t. split_and!; try done.
    intros -> Hd. rewrite (nonempty_true _ Hd) in Hbl. simpl in Hbl.
    by apply bool_decide_eq_false in Hbl.
Qed.

(** What a reply of the pipeline is made of: the text was admitted; the
    provider named is one of the four; the language reported is the detected
    one, upper-cased, and does not begin with [EN]; the text is the header
    followed by a translation that is not blank and differs from the input
    once both are normalised; and, when the blacklist applies and a language
    was detected, that language is on neither blacklist. *)
Theorem translate_pipeline_reply (e : env) (guild_id : option Z) (text : list N)
    (force apply_blacklist : bool) (s s' : state) (n detected composed : list N) :
  translate_pipeline e guild_id text force apply_blacklist s
  = (Ret (Some (n, detected, composed)), s') →
  skip_reason e text force = None
  ∧ (∃ k, n = kind_name k)
  ∧ ∃ d translated,
      detected = str_upper d
      ∧ composed = header e n d ++ translated
      ∧ strip translated ≠ []
      ∧ startswith (py "EN") detected = false
      ∧ normalize translated ≠ normalize text
      ∧ (apply_blacklist = true → d ≠ [] →
         detected ∉ effective_blacklist e guild_id (st_data s')).
Proof. apply translate_pipeline_inv. Qed.

(** When the provider name the merged settings select is none of the four,
    an admitted text makes the pipeline raise [KeyError] before any provider
    is entered: the trace is as it was. *)
Theorem translate_pipeline_unknown_provider (e : env) (guild_id : option Z)
    (text : list N) (force apply_blacklist : bool) (s : state) :
  skip_reason e text force = None →
  (∀ k, selected_name (merged_settings e guild_id (st_data s)) ≠ kind_name k) →
  translate_pipeline e guild_id text force apply_blacklist s
  = (Raise KeyError, with_data (after_merge guild_id (st_data s)) s).
Proof.
  intros Hskip Hno. rewrite translate_pipeline_run, Hskip. cbv zeta.
  by rewrite (build_provider_chain_unknown _ Hno).
Qed.

Lemma calls_of_chain_kinds (cfg : gmap (list N) (option (list N))) (selected : provider_kind) :
  (sum_list (calls <$> chain_kinds cfg selected) ≤ 5)%nat.
Proof.
  unfold chain_kinds. pose proof (calls_of_configured cfg selected) as Hle.
  destruct (configured_kinds cfg selected); [|done]. destruct selected; simpl; lia.
Qed.

(** One run of the pipeline makes at most five outbound calls, whatever the
    text, the settings and the back-ends' answers: two for LibreTranslate,
    one for each of the other providers. *)
Theorem translate_pipeline_call_bound (e : env) (guild_id : option Z) (text : list N)
    (force apply_blacklist : bool) (s : state) :
  ∃ evs,
    st_trace (translate_pipeline e guild_id text force apply_blacklist s).2
    = st_trace s ++ evs
    ∧ (length (filter (λ ev, is_outbound ev = true) evs) ≤ 5)%nat.
Proof.
  rewrite translate_pipeline_run.
  destruct (skip_reason e text force) as [why|].
  { exists []. rewrite app_nil_r. split; [done|simpl; lia]. }
  cbv zeta.
  destruct (build_provider_chain_cases (merged_settings e guild_id (st_data s)))
    as [[-> _]|(sel & _ & ->)].
  { exists []. rewrite app_nil_r. split; [done|simpl; lia]. }
  destruct (translate_via_chain_at_most (merged_settings e guild_id (st_data s))
              (chain_kinds (merged_settings e guild_id (st_data s)) sel) text (py "EN-US")
              (with_data (after_merge guild_id (st_data s)) s)) as (evs & Htr & Hn).
  pose proof (calls_of_chain_kinds (merged_settings e guild_id (st_data s)) sel) as Hle.
  exists evs. split; [|lia].
  destruct (translate_via_chain _ text (py "EN-US") _) as [[[r|]|err] s2]; exact Htr.
Qed.

Lemma after_merge_keeps (guild_id : option Z) (d : document) :
  guilds (after_merge guild_id d) = guilds d
  ∧ blacklist (after_merge guild_id d) = blacklist d
  ∧ ∀ g, settings (after_merge guild_id d) !! g = settings d !! g
         ∨ (settings d !! g = None ∧ settings (after_merge guild_id d) !! g = Some ∅).
Proof.
  unfold after_merge. destruct (given guild_id) as [g0|]; [|by split_and!; [..|left]].
  split_and!; [done..|]. intros g. simpl.
  destruct (decide (g = _g g0)) as [->|Hg].
  - rewrite lookup_insert_eq. destruct (settings d !! _g g0); [by left|by right].
  - rewrite lookup_insert_ne by done. by left.
Qed.

(** A run of the pipeline changes nothing that is stored: enabled channels
    and blacklists are as they were, every stored settings record is as it
    was, and the only record that can appear is an empty one. *)
Theorem translate_pipeline_keeps_store (e : env) (guild_id : option Z) (text : list N)
    (force apply_blacklist : bool) (s : state) :
  let d := st_data s in
  let d' := st_data (translate_pipeline e guild_id text force apply_blacklist s).2 in
  guilds d' = guilds d
  ∧ blacklist d' = blacklist d
  ∧ ∀ g, settings d' !! g = settings d !! g
         ∨ (settings d !! g = None ∧ settings d' !! g = Some ∅).
Proof.
  intros d d'.
  assert (d' = d ∨ d' = after_merge guild_id d) as [->| ->];
    [|by split_and!; [..|left]|apply after_merge_keeps].
  subst d d'. rewrite translate_pipeline_run.
  destruct (skip_reason e text force) as [why|]; [by left|]. right. cbv zeta.
  destruct (build_provider_chain_cases (merged_settings e guild_id (st_data s)))
    as [[-> _]|(sel & _ & ->)]; [done|].
  pose proof (translate_via_chain_keeps_data (merged_settings e guild_id (st_data s))
                (chain_kinds (merged_settings e guild_id (st_data s)) sel) text (py "EN-US")
                (with_data (after_merge guild_id (st_data s)) s)) as Hk.
  by destruct (translate_via_chain _ text (py "EN-US") _) as [[[r|]|err] s2].
Qed.
End pipeline_runs.

Lemma translate_pipeline_rejected_witness :
  translate_pipeline (U := ascii_tables) default_env (Some 7%Z) (py "12:30") true true
    (start (B := offline) _DEFAULT ())
  = (Ret None, start (B := offline) _DEFAULT ()).
Proof.
  apply (translate_pipeline_rejected (U := ascii_tables) (B := offline) default_env
           (Some 7%Z) (py "12:30") true true (start (B := offline) _DEFAULT ())
           (py "numeric_like")).
  by vm_compute.
Defined.

Lemma translate_pipeline_reply_witness :
  let text := py "bonjour tout le monde" in
  skip_reason (U := ascii_tables) (libre_env ∅) text false = None
  ∧ ∃ k, py "libre" = kind_name k.
Proof.
  intros text.
  destruct (translate_pipeline_reply (U := ascii_tables) (B := libre_french) (libre_env ∅)
              None text false true (start (B := libre_french) _DEFAULT ())
              (translate_pipeline (U := ascii_tables) (libre_env ∅) None text false true
                 (start (B := libre_french) _DEFAULT ())).2
              (py "libre") (py "FR")
              (py "Translated from FR via libre:" ++ [10] ++ py "hello everyone"))
    as (Hskip & Hname & _); [by vm_compute|done].
Defined.

Lemma translate_pipeline_unknown_provider_witness :
  let d := (update_settings 7%Z [(py "provider", Some (py "google"))] _DEFAULT).2 in
  (translate_pipeline (U := ascii_tables) default_env (Some 7%Z) (py "bonjour tout le monde")
     false true (start (B := offline) d ())).1
  = Raise KeyError.
Proof.
  intros d.
  rewrite (translate_pipeline_unknown_provider (U := ascii_tables) (B := offline)
             default_env (Some 7%Z) (py "bonjour tout le monde") false true
             (start (B := offline) d ())); [done|by vm_compute|].
  intros k. destruct k; by vm_compute.
Defined.

(** ** app.py: what the patterns add to the classifier *)

Lemma void_not_nullable (r : regex) : void r = true → nullable r = false.
Proof.
  induction r as [| |p|a IHa b IHb|a IHa b IHb|a IHa]; simpl; try done.
  - intros [Ha|Hb]%orb_prop; [rewrite IHa|rewrite IHb]; by rewrite ?andb_false_r.
  - intros [Ha Hb]%andb_prop. by rewrite IHa, IHb.
Qed.

Lemma void_deriv (c : N) (r : regex) : void r = true → void (deriv c r) = true.
Proof.
  induction r as [| |p|a IHa b IHb|a IHa b IHb|a IHa]; simpl; try done.
  - intros [Ha|Hb]%orb_prop.
    + rewrite (IHa Ha). simpl. rewrite (void_not_nullable a Ha). done.
    + rewrite Hb, orb_true_r. simpl. destruct (nullable a); [by apply IHb|done].
  - intros [Ha Hb]%andb_prop. by rewrite IHa, IHb.
Qed.

Lemma void_fullmatch (r : regex) (s : list N) : void r = true → fullmatch r s = false.
Proof.
  unfold fullmatch. revert r. induction s as [|c s IH]; intros r Hr; simpl.
  - by apply void_not_nullable.
  - by apply IH, void_deriv.
Qed.

Lemma deriv_outside (q : N → bool) (c : N) (r : regex) :
  chars_in q r → q c = false → void (deriv c r) = true.
Proof.
  intros Hr Hc. induction r as [| |p|a IHa b IHb|a IHa b IHb|a IHa]; simpl in *; try done.
  - destruct (p c) eqn:Hp; [|done]. apply Hr in Hp. congruence.
  - destruct Hr as [Ha Hb]. rewrite (IHa Ha). simpl.
    destruct (nullable a); [by apply IHb|done].
  - destruct Hr as [Ha Hb]. by rewrite IHa, IHb.
  - by rewrite IHa.
Qed.

Lemma chars_in_deriv (q : N → bool) (c : N) (r : regex) :
  chars_in q r → chars_in q (deriv c r).
Proof.
  induction r as [| |p|a IHa b IHb|a IHa b IHb|a IHa]; simpl; try done.
  - by destruct (p c).
  - intros [Ha Hb]. split_and!; [by apply IHa|done|]. destruct (nullable a); [by apply IHb|done].
  - intros [Ha Hb]. split; [by apply IHa|by apply IHb].
  - intros Ha. split; [by apply IHa|done].
Qed.

(** A text a pattern matches in full is made of characters of the
    pattern's classes. *)
Lemma fullmatch_chars (q : N → bool) (r : regex) (s : list N) :
  chars_in q r → fullmatch r s = true → Forall (λ c, q c = true) s.
Proof.
  revert r. induction s as [|c s IH]; intros r Hr Hm; [done|].
  change (fullmatch (deriv c r) s = true) in Hm.
  destruct (q c) eqn:Hc.
  - constructor; [done|]. eapply IH; [|done]. by apply chars_in_deriv.
  - by rewrite (void_fullmatch _ s (deriv_outside q c r Hr Hc)) in Hm.
Qed.

Lemma chars_in_rtimes (q : N → bool) (n : nat) (r : regex) :
  chars_in q r → chars_in q (rtimes n r).
Proof. intros Hr. induction n; simpl; [done|by split]. Qed.

Lemma chars_in_rupto (q : N → bool) (n : nat) (r : regex) :
  chars_in q r → chars_in q (rupto n r).
Proof. intros Hr. induction n; simpl; [done|by split_and!]. Qed.

Section patterns_add_nothing.
Context {U : Unicode}.
Hypothesis decimal_no_letter : ∀ c, isdecimal c = true → isalpha c = false.
Hypothesis space_no_letter : ∀ c, isspace c = true → isalpha c = false.
Hypothesis punctuation_no_letter : ∀ c, c ∈ py "+-/.,%:()[]" → isalpha c = false.

Lemma patterns_chars (r : regex) :
  r ∈ [R_SCORE; R_NUMBER; R_TIME; R_DATE; R_MIXED_NUM] →
  chars_in (λ c, negb (isalpha c)) r.
Proof.
  assert (Hd : chars_in (λ c, negb (isalpha c)) r_d).
  { intros c Hc. by rewrite decimal_no_letter. }
  assert (Hs : chars_in (λ c, negb (isalpha c)) r_s).
  { intros c Hc. by rewrite space_no_letter. }
  assert (Hl : ∀ x, x ∈ py "+-/.,%:()[]" → chars_in (λ c, negb (isalpha c)) (rlit x)).
  { intros x Hx c ->%N.eqb_eq. by rewrite punctuation_no_letter. }
  assert (Hset : ∀ cs, cs ⊆ py "+-/.,%:()[]" → chars_in (λ c, negb (isalpha c)) (rset cs)).
  { intros cs Hcs c Hc%bool_decide_eq_true. rewrite punctuation_no_letter; [done|].
    by apply Hcs. }
  assert (Hin : ∀ x, bool_decide (x ∈ py "+-/.,%:()[]") = true → x ∈ py "+-/.,%:()[]").
  { intros x. apply bool_decide_eq_true. }
  assert (Hsub : ∀ cs, forallb (λ x, bool_decide (x ∈ py "+-/.,%:()[]")) cs = true
                       → cs ⊆ py "+-/.,%:()[]").
  { intros cs Hcs x Hx. apply Hin. rewrite forallb_forall in Hcs. apply Hcs.
    by apply list_elem_of_In. }
  intros Hr. repeat (apply elem_of_cons in Hr as [->|Hr]); [..|by apply elem_of_nil in Hr].
  - unfold R_SCORE, rrange. cbn [chars_in rseq ropt].
    split_and!; try done; try (by apply chars_in_rtimes); try (by apply chars_in_rupto);
      by apply Hl, Hin.
  - unfold R_NUMBER, ratleast, ropt. cbn [chars_in rseq ropt].
    split_and!; try done; try (by apply chars_in_rtimes); try (by apply Hl, Hin);
      by apply Hset, Hsub.
  - unfold R_TIME, rrange, ropt. cbn [chars_in rseq ropt].
    split_and!; try done; try (by apply chars_in_rtimes); try (by apply chars_in_rupto);
      by apply Hl, Hin.
  - unfold R_DATE, date_with, rrange. cbn [chars_in rseq ropt].
    split_and!; try done; try (by apply chars_in_rtimes); try (by apply chars_in_rupto);
      by apply Hl, Hin.
  - unfold R_MIXED_NUM, ratleast. cbn [chars_in rseq ropt].
    assert (∀ c, isdecimal c || bool_decide (c ∈ py "-+()[]") || isspace c = true
                 → negb (isalpha c) = true) as Hc.
    { intros c [[Hc|Hc%bool_decide_eq_true]%orb_prop|Hc]%orb_prop.
      - by rewrite decimal_no_letter.
      - rewrite punctuation_no_letter; [done|]. revert c Hc. by apply Hsub.
      - by rewrite space_no_letter. }
    by split_and!.
Qed.

Lemma no_letter_count (s : list N) :
  length (filter (λ c, isalpha c = true) s) = O ↔ Forall (λ c, isalpha c = false) s.
Proof.
  induction s as [|c s IH]; [done|]. rewrite filter_cons, Forall_cons.
  destruct (decide (isalpha c = true)) as [Hc|Hc]; simpl.
  - split; [done|]. intros [? _]. congruence.
  - rewrite IH. apply not_true_is_false in Hc. tauto.
Qed.

(** The five patterns never change the verdict of [looks_numeric_like]:
    whatever they match has no alphabetic character, and such a text has
    been accepted before they are tried. The verdict is that the text,
    trimmed, has no alphabetic character. *)
Theorem looks_numeric_like_decided_by_letters (t : list N) :
  looks_numeric_like t = true ↔ Forall (λ c, isalpha c = false) (strip t).
Proof.
  unfold looks_numeric_like. destruct t as [|c t]; [done|]. cbn [nonempty negb].
  rewrite <- no_letter_count. case_bool_decide as Hcount; [done|].
  split; [|done]. intros Hm. destruct (existsb _ _) eqn:Hex; [|done].
  apply existsb_exists in Hex as (r & Hr%list_elem_of_In & Hfull).
  apply (fullmatch_chars _ _ _ (patterns_chars r Hr)) in Hfull.
  apply no_letter_count. eapply Forall_impl; [exact Hfull|].
  intros x Hx. by apply negb_true_iff.
Qed.
End patterns_add_nothing.

Lemma ascii_decimal_no_letter (c : N) : ascii_isdecimal c = true → ascii_isalpha c = false.
Proof.
  unfold ascii_isdecimal, ascii_isalpha, in_range.
  rewrite andb_true_iff, orb_false_iff, !andb_false_iff, !N.leb_le, !N.leb_gt. lia.
Qed.

Lemma ascii_space_no_letter (c : N) : isspace c = true → ascii_isalpha c = false.
Proof.
  unfold isspace, ascii_isalpha, in_range.
  rewrite !orb_true_iff, !andb_true_iff, orb_false_iff, !andb_false_iff, !N.leb_le,
    !N.leb_gt, !N.eqb_eq. lia.
Qed.

Lemma ascii_punctuation_no_letter (c : N) :
  c ∈ py "+-/.,%:()[]" → ascii_isalpha c = false.
Proof.
  intros Hc. vm_compute in Hc.
  repeat (apply elem_of_cons in Hc as [->|Hc]); [done..|by apply elem_of_nil in Hc].
Qed.

Lemma looks_numeric_like_decided_by_letters_witness :
  looks_numeric_like (U := ascii_tables) (py "12:30 pm") = false.
Proof.
  apply not_true_is_false.
  intros Hm%(looks_numeric_like_decided_by_letters (U := ascii_tables)
               ascii_decimal_no_letter ascii_space_no_letter ascii_punctuation_no_letter).
  vm_compute in Hm. apply Forall_cons_1 in Hm as [_ Hm]. apply Forall_cons_1 in Hm as [_ Hm].
  apply Forall_cons_1 in Hm as [_ Hm]. apply Forall_cons_1 in Hm as [_ Hm].
  apply Forall_cons_1 in Hm as [_ Hm]. apply Forall_cons_1 in Hm as [_ Hm].
  by apply Forall_cons_1 in Hm as [? _].
Defined.

(** ** app.py: what forcing changes *)

Section forced_mode.
Context {U : Unicode}.

Lemma too_long_not_auto_only (digits : list N) : auto_only (py "too_long:" ++ digits) = false.
Proof.
  unfold auto_only. rewrite !bool_decide_eq_false_2; [done|..]; intros H; by vm_compute in H.
Qed.

(** Forcing a translation lifts the two filters of automatic mode and
    nothing else: the forced verdict is the automatic one, except that
    [roman_hindi] and [low_signal] become an admission. *)
Theorem skip_reason_forced (e : env) (text : list N) :
  skip_reason e text true
  = match skip_reason e text false with
    | Some why => if auto_only why then None else Some why
    | None => None
    end.
Proof.
  unfold skip_reason.
  destruct (negb (nonempty (strip text))); [done|].
  case_bool_decide; [by rewrite too_long_not_auto_only|].
  destruct (IGNORE_NUMERIC_LIKE e && looks_numeric_like text); [done|]. cbn [negb andb].
  destruct (is_roman_hindi e text); [done|].
  by destruct (bool_decide (word_count text < AUTO_MIN_WORDS e)%Z && _).
Qed.
End forced_mode.

(** ** app.py: cutting a reply into parts *)

Lemma range_from_parts (s : list N) (n fuel i : nat) :
  (0 < n)%nat → (length s - i ≤ fuel)%nat →
  let parts := (λ j, take n (drop j s)) <$> range_from fuel i (length s) n in
  concat parts = drop i s
  ∧ Forall (λ p, p ≠ [] ∧ (length p ≤ n)%nat) parts
  ∧ (∀ k p, parts !! k = Some p → (S k < length parts)%nat → length p = n)
  ∧ (parts = [] ↔ (length s ≤ i)%nat).
Proof.
  intros Hn. revert i. induction fuel as [|fuel IH]; intros i Hfuel; cbn [range_from].
  - simpl. rewrite drop_ge by lia. split_and!; [done|done|done|]. split; [lia|done].
  - destruct (Nat.ltb_spec i (length s)) as [Hi|Hi].
    + destruct (IH (i + n)%nat ltac:(lia)) as (Hcat & Hall & Hfull & Hnil).
      rewrite fmap_cons. cbn zeta in *. split_and!.
      * cbn [concat]. rewrite Hcat, <- drop_drop. apply take_drop.
      * constructor; [|done]. split.
        -- intros E%(f_equal length). rewrite length_take, length_drop in E. simpl in E. lia.
        -- rewrite length_take. lia.
      * intros [|k] p; cbn [lookup list_lookup length].
        -- intros [= <-] Hlen. rewrite length_take, length_drop.
           destruct (decide (length s ≤ i + n)%nat) as [Hle|Hgt]; [|lia].
           apply Hnil in Hle. rewrite Hle in Hlen. simpl in Hlen. lia.
        -- intros Hp Hlen. apply (Hfull k p Hp). lia.
      * split; [done|lia].
    + simpl. rewrite drop_ge by lia. split_and!; [done|done|done|]. split; [lia|done].
Qed.

Lemma chunk_parts (s : list N) (size : Z) :
  (0 < size)%Z →
  ∃ parts,
    chunk s size = Some parts
    ∧ concat parts = s
    ∧ Forall (λ p, p ≠ [] ∧ (Z.of_nat (length p) ≤ size)%Z) parts
    ∧ (∀ k p, parts !! k = Some p → (S k < length parts)%nat → Z.of_nat (length p) = size)
    ∧ (parts = [] ↔ s = []).
Proof.
  intros Hsize. unfold chunk.
  destruct (Z.eqb_spec size 0) as [?|_]; [lia|]. destruct (Z.ltb_spec size 0) as [?|_]; [lia|].
  cbv zeta. eexists. split; [done|].
  destruct (range_from_parts s (Z.to_nat size) (length s) 0 ltac:(lia) ltac:(lia))
    as (Hcat & Hall & Hfull & Hnil).
  split_and!.
  - exact Hcat.
  - eapply Forall_impl; [exact Hall|]. intros p [Hp Hlen]. split; [done|lia].
  - intros k p Hp Hk. rewrite (Hfull k p Hp Hk). lia.
  - rewrite Hnil. split; [|by intros ->]. intros Hlen. apply nil_length_inv. lia.
Qed.

(** [chunk] raises for a size of zero ([range] refuses a step of zero) and
    gives no part for a negative size, whatever the text. With a positive
    size it cuts the text into parts that, put end to end, are the text
    again; no part is empty or longer than the size, every part but the last
    has exactly the size, and there is no part at all only for the empty
    text. *)
Theorem chunk_spec (s : list N) (size : Z) :
  (size = 0%Z → chunk s size = None)
  ∧ ((size < 0)%Z → chunk s size = Some [])
  ∧ ((0 < size)%Z →
     ∃ parts,
       chunk s size = Some parts
       ∧ concat parts = s
       ∧ Forall (λ p, p ≠ [] ∧ (Z.of_nat (length p) ≤ size)%Z) parts
       ∧ (∀ k p, parts !! k = Some p → (S k < length parts)%nat →
                 Z.of_nat (length p) = size)
       ∧ (parts = [] ↔ s = [])).
Proof.
  split_and!; [| |apply chunk_parts].
  - by intros ->.
  - intros Hneg. unfold chunk. destruct (Z.eqb_spec size 0); [lia|].
    by destruct (Z.ltb_spec size 0); [|lia].
Qed.

Example chunk_in_threes :
  chunk (py "abcdefg") 3 = Some [py "abc"; py "def"; py "g"].
Proof. by vm_compute. Qed.

(** ** app.py: a reply can always be delivered *)

Lemma reply_translation_parts (composed : list N) :
  composed ≠ [] →
  ∃ first rest,
    reply_translation composed = Some (Reply first :: (Send <$> rest))
    ∧ first ++ concat rest = composed
    ∧ Forall (λ p, p ≠ [] ∧ (length p ≤ 1900)%nat) (first :: rest).
Proof.
  intros Hne. unfold reply_translation.
  destruct (chunk_parts composed 1900 eq_refl) as (parts & -> & Hcat & Hall & _ & Hnil).
  destruct parts as [|first rest]; [by destruct Hne; apply Hnil|].
  exists first, rest. split_and!; [done..|].
  eapply Forall_impl; [exact Hall|]. intros p [Hp Hlen]. split; [done|lia].
Qed.

(** [reply_translation] raises on the empty text and on no other: any other
    text is delivered as a reply followed by plain messages that, put end to
    end, are the text, none of them empty or longer than 1900 characters. *)
Theorem reply_translation_spec (composed : list N) :
  (composed = [] → reply_translation composed = None)
  ∧ (composed ≠ [] →
     ∃ first rest,
       reply_translation composed = Some (Reply first :: (Send <$> rest))
       ∧ first ++ concat rest = composed
       ∧ Forall (λ p, p ≠ [] ∧ (length p ≤ 1900)%nat) (first :: rest)).
Proof. split; [by intros ->|apply reply_translation_parts]. Qed.

Section deliverable.
Context {U : Unicode} {B : Backend}.

(** What the pipeline returns can be delivered: its text is never empty, so
    [reply_translation] does not raise on it. *)
Theorem pipeline_reply_is_deliverable (e : env) (guild_id : option Z)
    (text : list N) (force apply_blacklist : bool) (s s' : state)
    (n detected composed : list N) :
  translate_pipeline e guild_id text force apply_blacklist s
  = (Ret (Some (n, detected, composed)), s') →
  ∃ first rest,
    reply_translation composed = Some (Reply first :: (Send <$> rest))
    ∧ first ++ concat rest = composed
    ∧ Forall (λ p, p ≠ [] ∧ (length p ≤ 1900)%nat) (first :: rest).
Proof.
  intros (_ & _ & d & t & _ & -> & Ht & _)%translate_pipeline_inv.
  apply reply_translation_parts. intros [_ ->]%app_eq_nil. by apply Ht.
Qed.
End deliverable.

Lemma pipeline_reply_is_deliverable_witness :
  ∃ first rest,
    reply_translation (py "Translated from FR via libre:" ++ [10] ++ py "hello everyone")
    = Some (Reply first :: (Send <$> rest)).
Proof.
  destruct (pipeline_reply_is_deliverable (U := ascii_tables) (B := libre_french)
              (libre_env ∅) None (py "bonjour tout le monde") false true
              (start (B := libre_french) _DEFAULT ())
              (translate_pipeline (U := ascii_tables) (libre_env ∅) None
                 (py "bonjour tout le monde") false true
                 (start (B := libre_french) _DEFAULT ())).2
              (py "libre") (py "FR")
              (py "Translated from FR via libre:" ++ [10] ++ py "hello everyone"))
    as (first & rest & Hreply & _); [by vm_compute|].
  by exists first, rest.
Defined.

(** ** app.py: the settings commands keep the provider name known *)

Section commands.
Context {U : Unicode} {B : Backend}.
Hypothesis lower_names : ∀ k, str_lower (kind_name k) = kind_name k.

Lemma provider_known_default : provider_known _DEFAULT.
Proof. intros g st v Hst. simpl in Hst. by rewrite lookup_empty in Hst. Qed.

Lemma provider_known_update (guild_id : Z) (key : list N) (value : list N) (d : document) :
  (key = py "provider" → ∃ k, value = kind_name k) →
  provider_known d →
  provider_known (update_settings guild_id [(key, Some value)] d).2.
Proof.
  intros Hval Hd g st v. unfold update_settings, get_settings. simpl.
  rewrite insert_insert_eq. destruct (decide (g = _g guild_id)) as [->|Hg].
  - rewrite lookup_insert_eq. intros [= <-].
    destruct (decide (py "provider" = key)) as [<-|Hk].
    + rewrite lookup_insert_eq. intros [= <-]. destruct (Hval eq_refl) as [k ->]. by exists k.
    + rewrite lookup_insert_ne by done.
      destruct (settings d !! _g guild_id) as [st|] eqn:Hst; simpl; [by apply (Hd _ _ _ Hst)|].
      by rewrite lookup_empty.
  - rewrite lookup_insert_ne by done. apply Hd.
Qed.

Lemma run_command_known (d : document) (use : bool * Z * settings_command) :
  provider_known d → provider_known (run_command d use).
Proof.
  intros Hd. destruct use as [[[] guild_id] c]; [|by destruct c].
  destruct c; simpl; try (apply provider_known_update; [by intros ?|done]).
  unfold set_provider. simpl. case_bool_decide as Hin; simpl; [|done].
  apply provider_known_update; [|done]. intros _.
  repeat (apply elem_of_cons in Hin as [->|Hin]);
    [by exists Deepl|by exists Libre|by exists Lingva|by exists Simply|by apply elem_of_nil in Hin].
Qed.

Lemma selected_name_known (e : env) (guild_id : option Z) (d : document) :
  (∃ k, DEFAULT_PROVIDER e = kind_name k) → provider_known d →
  ∃ k, selected_name (merged_settings e guild_id d) = kind_name k.
Proof.
  intros [k0 Hk0] Hd.
  assert (∃ k, cfg_get (merged_settings e guild_id d) (py "provider") = Some (kind_name k))
    as [k Hk].
  { unfold merged_settings, cfg_get, dict_update. destruct (given guild_id) as [g|].
    - unfold get_settings. simpl.
      destruct (settings d !! _g g) as [st|] eqn:Hst; simpl.
      + destruct (st !! py "provider") as [v|] eqn:Hv.
        * destruct (Hd _ _ _ Hst Hv) as [k ->]. exists k.
          by rewrite (lookup_union_Some_l _ _ _ _ Hv).
        * exists k0. rewrite lookup_union_r by done. by rewrite <- Hk0.
      + exists k0. rewrite (left_id ∅ _). by rewrite <- Hk0.
    - exists k0. by rewrite <- Hk0. }
  exists k. unfold selected_name. rewrite Hk.
  replace (str_or (Some (kind_name k)) (py "deepl")) with (kind_name k) by by destruct k.
  apply lower_names.
Qed.

(** Whatever settings commands were used, by whomever and for whichever
    tenants, [build_provider_chain] finds the provider the merged settings
    name, provided the default provider is one of the four: the commands
    store no other name. *)
Theorem settings_commands_keep_provider_known (e : env) (guild_id : option Z)
    (uses : list (bool * Z * settings_command)) :
  (∃ k, DEFAULT_PROVIDER e = kind_name k) →
  let d := foldl run_command _DEFAULT uses in
  provider_known d
  ∧ ∃ chain, build_provider_chain (merged_settings e guild_id d) = Ret chain.
Proof.
  intros Hdefault d.
  assert (provider_known d) as Hd.
  { subst d. generalize provider_known_default. generalize _DEFAULT.
    induction uses as [|use uses IH]; intros d0 Hd0; [done|].
    simpl. apply IH. by apply run_command_known. }
  split; [done|].
  destruct (selected_name_known e guild_id d Hdefault Hd) as [k Hk].
  eexists. by apply build_provider_chain_chain_kinds.
Qed.
End commands.

Lemma ascii_lower_names (k : provider_kind) :
  str_lower (Unicode := ascii_tables) (kind_name k) = kind_name k.
Proof. by destruct k. Qed.

Lemma settings_commands_keep_provider_known_witness :
  ∃ chain,
    build_provider_chain (U := ascii_tables) (B := offline)
      (merged_settings default_env (Some 7%Z)
         (foldl (run_command (U := ascii_tables)) _DEFAULT
            [(true, 7%Z, SetProvider (py "Lingva")); (true, 7%Z, SetProvider (py "google"))]))
    = Ret chain.
Proof.
  apply (settings_commands_keep_provider_known (U := ascii_tables) (B := offline)
           ascii_lower_names default_env (Some 7%Z)
           [(true, 7%Z, SetProvider (py "Lingva")); (true, 7%Z, SetProvider (py "google"))]).
  by exists Deepl.
Defined.

(** ** providers.py: the query of a Lingva request *)

Lemma utf8_encode_char_spec (c : N) :
  code_point c →
  match utf8_encode_char c with
  | Ret bs => surrogate c = false ∧ Forall (λ b, b < 256) bs
  | Raise e => e = UnicodeEncodeError ∧ surrogate c = true
  end.
Proof.
  unfold code_point, utf8_encode_char, surrogate. intros Hc.
  destruct (N.ltb_spec c 128) as [H1|H1].
  { split; [|by repeat constructor; lia].
    unfold in_range. apply andb_false_iff. left. apply N.leb_gt. lia. }
  destruct (N.ltb_spec c 2048) as [H2|H2].
  { split.
    - unfold in_range. apply andb_false_iff. left. apply N.leb_gt. lia.
    - assert (c / 64 < 32) by (apply N.Div0.div_lt_upper_bound; lia).
      assert (c `mod` 64 < 64) by (apply N.mod_lt; lia).
      repeat constructor; lia. }
  destruct (in_range 55296 57343 c) eqn:Hs; [done|].
  destruct (N.ltb_spec c 65536) as [H3|H3]; (split; [done|]).
  - assert (c / 4096 < 16) by (apply N.Div0.div_lt_upper_bound; lia).
    assert ((c / 64) `mod` 64 < 64) by (apply N.mod_lt; lia).
    assert (c `mod` 64 < 64) by (apply N.mod_lt; lia).
    repeat constructor; lia.
  - assert (c / 262144 < 5) by (apply N.Div0.div_lt_upper_bound; lia).
    assert ((c / 4096) `mod` 64 < 64) by (apply N.mod_lt; lia).
    assert ((c / 64) `mod` 64 < 64) by (apply N.mod_lt; lia).
    assert (c `mod` 64 < 64) by (apply N.mod_lt; lia).
    repeat constructor; lia.
Qed.

Lemma utf8_encode_spec (text : list N) :
  Forall code_point text →
  match utf8_encode text with
  | Ret bs => Forall (λ c, surrogate c = false) text ∧ Forall (λ b, b < 256) bs
  | Raise e => e = UnicodeEncodeError ∧ Exists (λ c, surrogate c = true) text
  end.
Proof.
  induction 1 as [|c text Hc _ IH]; [done|]. cbn [utf8_encode].
  pose proof (utf8_encode_char_spec c Hc) as Hchar.
  destruct (utf8_encode_char c) as [bs|e].
  - destruct Hchar as [Hs Hbs]. destruct (utf8_encode text) as [bs'|e].
    + destruct IH as [Hs' Hbs']. split; [by constructor|by apply Forall_app].
    + destruct IH as [-> Hex]. split; [done|by right].
  - destruct Hchar as [-> Hs]. split; [done|by left].
Qed.

Lemma hex_digit_unreserved (d : N) : d < 16 → unreserved (hex_digit d) = true.
Proof.
  intros Hd. unfold hex_digit, unreserved, in_range.
  destruct (N.ltb_spec d 10).
  - replace (48 <=? 48 + d) with true by (symmetry; apply N.leb_le; lia).
    replace (48 + d <=? 57) with true by (symmetry; apply N.leb_le; lia).
    by rewrite !orb_true_r.
  - replace (65 <=? 55 + d) with true by (symmetry; apply N.leb_le; lia).
    by replace (55 + d <=? 90) with true by (symmetry; apply N.leb_le; lia).
Qed.

Lemma quote_byte_chars (b : N) :
  b < 256 → Forall (λ c, unreserved c = true ∨ c = 37) (quote_byte b).
Proof.
  intros Hb. unfold quote_byte. destruct (unreserved b) eqn:Hu.
  - constructor; [by left|constructor].
  - assert (b / 16 < 16) by (apply N.Div0.div_lt_upper_bound; lia).
    assert (b `mod` 16 < 16) by (apply N.mod_lt; lia).
    constructor; [by right|].
    constructor; [left; by apply hex_digit_unreserved|].
    constructor; [left; by apply hex_digit_unreserved|constructor].
Qed.

(** [quote] raises exactly on a text that holds a surrogate, and what it
    raises is [UnicodeEncodeError]; otherwise the query it returns is made of
    unreserved characters and percent signs alone (no slash, no question
    mark, no space), and is the text itself when the text is made of
    unreserved characters. *)
Theorem quote_spec (text : list N) :
  Forall code_point text →
  match quote text with
  | Ret query =>
      Forall (λ c, surrogate c = false) text
      ∧ Forall (λ c, unreserved c = true ∨ c = 37) query
      ∧ (Forall (λ c, unreserved c = true) text → query = text)
  | Raise e => e = UnicodeEncodeError ∧ Exists (λ c, surrogate c = true) text
  end.
Proof.
  intros Htext. unfold quote. pose proof (utf8_encode_spec text Htext) as Henc.
  destruct (utf8_encode text) as [bs|e] eqn:E; [|done]. destruct Henc as [Hs Hbs].
  split_and!; [done| |].
  - clear E. induction Hbs as [|b bs Hb _ IH]; [done|].
    change ((b :: bs) ≫= quote_byte) with (quote_byte b ++ (bs ≫= quote_byte)).
    apply Forall_app. split; [by apply quote_byte_chars|done].
  - intros Hplain. clear Htext Hs Hbs. revert bs E.
    induction Hplain as [|c text Hc _ IH]; intros bs E; [by injection E as <-|].
    cbn [utf8_encode] in E.
    assert (utf8_encode_char c = Ret [c]) as Hchar.
    { unfold utf8_encode_char. destruct (N.ltb_spec c 128) as [|Hge]; [done|].
      exfalso. revert Hc. unfold unreserved, in_range.
      rewrite !orb_true_iff, !andb_true_iff, !N.leb_le, !N.eqb_eq. lia. }
    rewrite Hchar in E. destruct (utf8_encode text) as [bs'|]; [|done].
    injection E as <-. change ((c :: bs') ≫= quote_byte)
      with (quote_byte c ++ (bs' ≫= quote_byte)).
    unfold quote_byte at 1. rewrite Hc. simpl. f_equal. by apply IH.
Qed.

Lemma quote_spec_witness :
  quote (py "a b/c") = Ret (py "a%20b%2Fc")
  ∧ Forall (λ c, unreserved c = true ∨ c = 37) (py "a%20b%2Fc").
Proof.
  split; [done|].
  pose proof (quote_spec (py "a b/c")) as H. vm_compute quote in H.
  apply H. unfold code_point. vm_compute py. repeat constructor; lia.
Defined.

(** ** app.py: removing mentions *)

Lemma dropwhile_suffix {A} (p : A → bool) (l : list A) : dropwhile p l `suffix_of` l.
Proof.
  induction l as [|x l IH]; simpl; [done|]. destruct (p x); [|done]. by apply suffix_cons_r.
Qed.

Lemma suffix_sublist {A} (l1 l2 : list A) : l1 `suffix_of` l2 → l1 `sublist_of` l2.
Proof. intros [k ->]. by apply sublist_inserts_l. Qed.

Lemma strip_sublist (s : list N) : strip s `sublist_of` s.
Proof.
  unfold strip, rstrip, lstrip.
  trans (dropwhile isspace s); [|apply suffix_sublist, dropwhile_suffix].
  generalize (dropwhile isspace s). intros l.
  destruct (dropwhile_suffix isspace (reverse l)) as [k Hk].
  apply (f_equal reverse) in Hk. rewrite reverse_involutive, reverse_app in Hk.
  revert Hk. generalize (reverse (dropwhile isspace (reverse l))). intros x ->.
  by apply sublist_inserts_r.
Qed.

Lemma str_or_nil (s : list N) : str_or (Some s) [] = s.
Proof. by destruct s. Qed.

Section mention_props.
Context {U : Unicode}.

Lemma after_mention_suffix (s rest : list N) :
  after_mention s = Some rest → rest `suffix_of` s ∧ (length rest < length s)%nat.
Proof.
  unfold after_mention. destruct s as [|c0 [|c1 s1]]; try done.
  destruct (negb _); [done|].
  set (s2 := match s1 with c :: s2 => if c =? 33 then s2 else s1 | [] => s1 end).
  assert (s2 `suffix_of` s1) as Hs2.
  { subst s2. destruct s1 as [|c s1]; [done|]. destruct (c =? 33); [|done].
    by apply suffix_cons_r. }
  clearbody s2. pose proof (dropwhile_suffix isdecimal s2) as Hd.
  destruct (takewhile isdecimal s2); [done|].
  destruct (dropwhile isdecimal s2) as [|c rest']; [done|].
  destruct (c =? 62); [|done]. intros [= ->].
  assert (rest `suffix_of` s1) as Hr.
  { etrans; [|exact Hs2]. etrans; [|exact Hd]. by apply suffix_cons_r. }
  split; [by do 2 apply suffix_cons_r|].
  apply suffix_length in Hr. simpl. lia.
Qed.

Lemma sub_mentions_sublist (fuel : nat) (s : list N) : sub_mentions fuel s `sublist_of` s.
Proof.
  revert s. induction fuel as [|fuel IH]; intros s; [done|]. cbn [sub_mentions].
  destruct s as [|c s]; [done|].
  destruct (after_mention (c :: s)) as [rest|] eqn:E.
  - etrans; [apply IH|]. by apply suffix_sublist, after_mention_suffix.
  - by apply sublist_skip.
Qed.

Lemma sub_mentions_plain (fuel : nat) (s : list N) : 60 ∉ s → sub_mentions fuel s = s.
Proof.
  revert s. induction fuel as [|fuel IH]; intros s Hs; [done|]. cbn [sub_mentions].
  destruct s as [|c s]; [done|]. apply not_elem_of_cons in Hs as [Hc Hs].
  replace (after_mention (c :: s)) with (@None (list N)); [by rewrite IH|].
  unfold after_mention. destruct s as [|c1 s1]; [done|].
  destruct (N.eqb_spec c 60) as [->|_]; done.
Qed.

Lemma sub_mentions_fuel (f1 f2 : nat) (s : list N) :
  (length s ≤ f1)%nat → (length s ≤ f2)%nat → sub_mentions f1 s = sub_mentions f2 s.
Proof.
  revert f2 s. induction f1 as [|f1 IH]; intros f2 s H1 H2.
  - destruct s; [|simpl in H1; lia]. by destruct f2.
  - destruct f2 as [|f2]; [destruct s; [done|simpl in H2; lia]|]. cbn [sub_mentions].
    destruct s as [|c s]; [done|]. simpl in H1, H2.
    destruct (after_mention (c :: s)) as [rest|] eqn:E.
    + apply after_mention_suffix in E as [_ Hlen]. simpl in Hlen. apply IH; lia.
    + f_equal. apply IH; lia.
Qed.

Hypothesis bang_no_digit : isdecimal 33 = false.
Hypothesis gt_no_digit : isdecimal 62 = false.

Lemma takewhile_digits (digits rest : list N) :
  Forall (λ c, isdecimal c = true) digits →
  takewhile isdecimal (digits ++ 62 :: rest) = digits
  ∧ dropwhile isdecimal (digits ++ 62 :: rest) = 62 :: rest.
Proof.
  induction 1 as [|c digits Hc _ [IH1 IH2]]; simpl.
  - by rewrite gt_no_digit.
  - rewrite Hc. by rewrite IH1, IH2.
Qed.

Lemma after_mention_head (bang digits rest : list N) :
  bang = [] ∨ bang = [33] → digits ≠ [] → Forall (λ c, isdecimal c = true) digits →
  after_mention (py "<@" ++ bang ++ digits ++ py ">" ++ rest) = Some rest.
Proof.
  intros Hbang Hne Hdigits. destruct (takewhile_digits digits rest Hdigits) as [Ht Hd].
  change (py "<@" ++ bang ++ digits ++ py ">" ++ rest)
    with (60 :: 64 :: bang ++ digits ++ 62 :: rest).
  unfold after_mention. cbn [N.eqb Pos.eqb andb negb].
  destruct Hbang as [-> | ->].
  - cbn [app]. destruct digits as [|c digits]; [done|]. cbn [app].
    destruct (N.eqb_spec c 33) as [->|_].
    + apply Forall_cons_1 in Hdigits as [Hc _]. congruence.
    + change (c :: digits ++ 62 :: rest) with ((c :: digits) ++ 62 :: rest).
      by rewrite Ht, Hd.
  - cbn [app N.eqb Pos.eqb]. rewrite Ht, Hd. by destruct digits.
Qed.

(** [strip_bot_mention] only removes characters; a text without [<] loses
    nothing but the white space at its ends; and a mention that opens the
    text, written with or without the exclamation mark, is removed. *)
Theorem strip_bot_mention_spec (text : option (list N)) :
  strip_bot_mention text `sublist_of` str_or text []
  ∧ (60 ∉ str_or text [] → strip_bot_mention text = strip (str_or text []))
  ∧ ∀ bang digits rest,
      bang = [] ∨ bang = [33] → digits ≠ [] → Forall (λ c, isdecimal c = true) digits →
      text = Some (py "<@" ++ bang ++ digits ++ py ">" ++ rest) →
      strip_bot_mention text = strip_bot_mention (Some rest).
Proof.
  unfold strip_bot_mention. cbv zeta. split_and!.
  - etrans; [apply strip_sublist|apply sub_mentions_sublist].
  - intros Hplain. by rewrite sub_mentions_plain.
  - intros bang digits rest Hbang Hne Hdigits ->. rewrite !str_or_nil.
    pose proof (after_mention_head bang digits rest Hbang Hne Hdigits) as Hm.
    revert Hm. generalize (py "<@" ++ bang ++ digits ++ py ">" ++ rest). intros s Hm.
    destruct (after_mention_suffix s rest Hm) as [_ Hlen].
    destruct s as [|c s']; [done|]. cbn [length sub_mentions]. rewrite Hm.
    f_equal. apply sub_mentions_fuel; [simpl in Hlen; lia|done].
Qed.
End mention_props.

Lemma strip_bot_mention_spec_witness :
  strip_bot_mention (U := ascii_tables) (Some (py "<@!42> hola"))
  = strip_bot_mention (U := ascii_tables) (Some (py " hola")).
Proof.
  destruct (strip_bot_mention_spec (U := ascii_tables) eq_refl eq_refl
              (Some (py "<@!42> hola"))) as (_ & _ & Hhead).
  apply (Hhead [33] (py "42") (py " hola")); [by right|done|by repeat constructor|done].
Defined.

(** ** app.py: direct messages *)

Section dm.
Context {U : Unicode} {B : Backend}.
Variable process_commands : message → M unit.

(** [ENABLE_DMS] changes nothing: a message outside a server (as every
    direct message is) is dropped whatever its value, and a message in a
    server never reaches the test in a direct-message channel. *)
Theorem on_message_ignores_ENABLE_DMS (sw : switches) (e : env) (m : message)
    (enable_dms : bool) :
  (dm_channel m = true → guild m = None) →
  on_message process_commands
    {| ENABLE_DMS := enable_dms; ONLY_WHEN_MENTIONED := ONLY_WHEN_MENTIONED sw |} e m
  = on_message process_commands sw e m.
Proof.
  intros Hdm. unfold on_message. f_equal. destruct (author_bot m); [done|]. f_equal.
  destruct (dm_channel m).
  - rewrite (Hdm eq_refl). by destruct enable_dms, (ENABLE_DMS sw).
  - done.
Qed.
End dm.

Lemma on_message_ignores_ENABLE_DMS_witness :
  let m := {| author_bot := false; dm_channel := true; guild := None; channel_id := 5;
              content := Some (py "bonjour tout le monde"); mentions_bot := false |} in
  on_message (U := ascii_tables) (B := offline) (λ _, ret ())
    {| ENABLE_DMS := true; ONLY_WHEN_MENTIONED := false |} default_env m
  = on_message (U := ascii_tables) (B := offline) (λ _, ret ())
      {| ENABLE_DMS := false; ONLY_WHEN_MENTIONED := false |} default_env m.
Proof.
  intros m.
  apply (on_message_ignores_ENABLE_DMS (U := ascii_tables) (B := offline) (λ _, ret ())
           {| ENABLE_DMS := false; ONLY_WHEN_MENTIONED := false |} default_env m true).
  done.
Defined.
